(** * QS-Formatter: the review editor of bilingual question records

    A shallow embedding of the TypeScript front end (types.ts,
    PreviewEditor, QuestionCard, AddQuestionForm, the upload page and the
    address of the back end each component computes) and of the alignment
    and confidence steps of the extraction pipeline, with the properties
    the specification states about them.

    React state is modelled by explicit state passing: every component is a
    record of its [useState] cells and every handler a function from the
    state before the event to the state after it.  The image upload, the
    one network effect of the handlers, runs in a small state monad over the
    responses of the server. *)

From Stdlib Require Import ZArith NArith QArith Lqa PrimFloat.
From Stdlib Require Import Ascii String DecimalNat.
From stdpp Require Import base tactics option list sorting gmap.

Set Default Proof Using "Type".
Set Warnings "-inexact-float".

Local Open Scope nat_scope.

(** ** JavaScript strings

    A JavaScript string is a sequence of UTF-16 code units.  The empty
    string is the only falsy one. *)

Abbreviation code_unit := N (only parsing).
Abbreviation jsstring := (list N) (only parsing).

(** A literal of the source, for the ASCII literals the handlers use. *)
Definition lit (s : string) : jsstring :=
  N_of_ascii <$> list_ascii_of_string s.

(** Truthiness of a string: [s ? a : b], [s || t], [!s]. *)
Definition truthy (s : jsstring) : bool :=
  match s with [] => false | _ :: _ => true end.

(** [WhiteSpace] and [LineTerminator] of ECMAScript, the code units that
    [String.prototype.trim] strips. *)
Definition isWhiteSpace (c : code_unit) : bool :=
  ((9 <=? c) && (c <=? 13) || (c =? 32) || (c =? 160) || (c =? 5760)
   || (8192 <=? c) && (c <=? 8202) || (c =? 8232) || (c =? 8233)
   || (c =? 8239) || (c =? 8287) || (c =? 12288) || (c =? 65279))%N.

Fixpoint trimStart (s : jsstring) : jsstring :=
  match s with
  | c :: s' => if isWhiteSpace c then trimStart s' else s
  | [] => []
  end.

Definition trimEnd (s : jsstring) : jsstring :=
  reverse (trimStart (reverse s)).

Definition trim (s : jsstring) : jsstring := trimEnd (trimStart s).

(** The decimal digits of a number, most significant first. *)
Fixpoint uint_units (d : Decimal.uint) : jsstring :=
  match d with
  | Decimal.Nil => []
  | Decimal.D0 d => 48%N :: uint_units d
  | Decimal.D1 d => 49%N :: uint_units d
  | Decimal.D2 d => 50%N :: uint_units d
  | Decimal.D3 d => 51%N :: uint_units d
  | Decimal.D4 d => 52%N :: uint_units d
  | Decimal.D5 d => 53%N :: uint_units d
  | Decimal.D6 d => 54%N :: uint_units d
  | Decimal.D7 d => 55%N :: uint_units d
  | Decimal.D8 d => 56%N :: uint_units d
  | Decimal.D9 d => 57%N :: uint_units d
  end.

(** [`${n}`] for a non-negative integer [n] (an array length, an index). *)
Definition Number_toString (n : nat) : jsstring :=
  uint_units (Nat.to_uint n).

(** ** types.ts *)

Inductive QuestionType := multiple_choice | integer | fill_ups | true_false.
Inductive TableRenderMode := preserve | image.

#[global] Instance QuestionType_eq_dec : EqDecision QuestionType.
Proof. solve_decision. Defined.

Module ImageData.
Record t := mk {
  id : jsstring;
  filename : jsstring;
  path : jsstring;
  content_type : jsstring;
}.
End ImageData.

Module Option.
Record t := mk {
  label : jsstring;
  english_text : jsstring;
  hindi_text : jsstring;
  needs_image : option bool;
  images : option (list ImageData.t);
}.

(** [{ ...opt, label: l }] *)
Definition with_label (l : jsstring) (opt : t) : t :=
  mk l (english_text opt) (hindi_text opt) (needs_image opt) (images opt).

(** [{ ...opt, english_text: e }] *)
Definition with_english_text (e : jsstring) (opt : t) : t :=
  mk (label opt) e (hindi_text opt) (needs_image opt) (images opt).

(** [{ ...opt, hindi_text: h }] *)
Definition with_hindi_text (h : jsstring) (opt : t) : t :=
  mk (label opt) (english_text opt) h (needs_image opt) (images opt).

(** [{ label: l, english_text: '', hindi_text: '' }] *)
Definition empty (l : jsstring) : t := mk l [] [] None None.

(** The callback [o => o.english_text || o.hindi_text], as a boolean. *)
Definition has_text (o : t) : bool :=
  truthy (english_text o) || truthy (hindi_text o).

(** What an option says, its label apart. *)
Definition content (o : t) :=
  (english_text o, hindi_text o, needs_image o, images o).

(** The field [handleOptionChange] writes: ['english_text' | 'hindi_text']. *)
Inductive field := english_text_field | hindi_text_field.

(** [{ ...opt, [field]: value }] *)
Definition with_field (f : field) (value : jsstring) (opt : t) : t :=
  match f with
  | english_text_field => with_english_text value opt
  | hindi_text_field => with_hindi_text value opt
  end.
End Option.

Module TableData.
Record t := mk {
  id : jsstring;
  html : jsstring;
  is_complex : bool;
  render_mode : TableRenderMode;
  image_path : option jsstring;
}.
End TableData.

Inductive QuestionFlag :=
  | missing_english
  | missing_hindi
  | missing_options
  | incomplete_options
  | ambiguous_numbering
  | complex_table
  | unmatched_images
  | low_confidence
  | count_mismatch
  | needs_image
  | options_need_images.

#[global] Instance QuestionFlag_eq_dec : EqDecision QuestionFlag.
Proof. solve_decision. Defined.

(** The string each member of the union type is. *)
Definition QuestionFlag_string (f : QuestionFlag) : jsstring :=
  match f with
  | missing_english => lit "missing_english"
  | missing_hindi => lit "missing_hindi"
  | missing_options => lit "missing_options"
  | incomplete_options => lit "incomplete_options"
  | ambiguous_numbering => lit "ambiguous_numbering"
  | complex_table => lit "complex_table"
  | unmatched_images => lit "unmatched_images"
  | low_confidence => lit "low_confidence"
  | count_mismatch => lit "count_mismatch"
  | needs_image => lit "needs_image"
  | options_need_images => lit "options_need_images"
  end.

(** A record of the review list.  [flags] is declared [QuestionFlag[]];
    what the field holds at run time are the strings of the preview
    response, which nothing checks against the union, so the field is a
    list of strings.  [id] is a number that holds an integer. *)
Module Question.
Record t := mk {
  id : Z;
  english_text : jsstring;
  hindi_text : jsstring;
  question_type : QuestionType;
  options : list Option.t;
  tables : list TableData.t;
  images : list ImageData.t;
  answer : option jsstring;
  solution_english : option jsstring;
  solution_hindi : option jsstring;
  grading : option jsstring;
  confidence : float;
  flags : list jsstring;
  needs_image : option bool;
  raw_english : option jsstring;
  raw_hindi : option jsstring;
}.

(** [{ ...q, options: os }] *)
Definition with_options (os : list Option.t) (q : t) : t :=
  mk (id q) (english_text q) (hindi_text q) (question_type q) os
     (tables q) (images q) (answer q) (solution_english q)
     (solution_hindi q) (grading q) (confidence q) (flags q)
     (needs_image q) (raw_english q) (raw_hindi q).

(** [{ ...q, id: i }] *)
Definition with_id (i : Z) (q : t) : t :=
  mk i (english_text q) (hindi_text q) (question_type q) (options q)
     (tables q) (images q) (answer q) (solution_english q)
     (solution_hindi q) (grading q) (confidence q) (flags q)
     (needs_image q) (raw_english q) (raw_hindi q).

(** [{ ...q, images: imgs }] *)
Definition with_images (imgs : list ImageData.t) (q : t) : t :=
  mk (id q) (english_text q) (hindi_text q) (question_type q) (options q)
     (tables q) imgs (answer q) (solution_english q)
     (solution_hindi q) (grading q) (confidence q) (flags q)
     (needs_image q) (raw_english q) (raw_hindi q).

(** [{ ...q, english_text: v }] and [{ ...q, hindi_text: v }], for the
    textareas of the card. *)
Definition with_english_text (v : jsstring) (q : t) : t :=
  mk (id q) v (hindi_text q) (question_type q) (options q)
     (tables q) (images q) (answer q) (solution_english q)
     (solution_hindi q) (grading q) (confidence q) (flags q)
     (needs_image q) (raw_english q) (raw_hindi q).

Definition with_hindi_text (v : jsstring) (q : t) : t :=
  mk (id q) (english_text q) v (question_type q) (options q)
     (tables q) (images q) (answer q) (solution_english q)
     (solution_hindi q) (grading q) (confidence q) (flags q)
     (needs_image q) (raw_english q) (raw_hindi q).

(** The same for the other inputs of the card. *)
Definition with_question_type (v : QuestionType) (q : t) : t :=
  mk (id q) (english_text q) (hindi_text q) v (options q)
     (tables q) (images q) (answer q) (solution_english q)
     (solution_hindi q) (grading q) (confidence q) (flags q)
     (needs_image q) (raw_english q) (raw_hindi q).

Definition with_answer (v : option jsstring) (q : t) : t :=
  mk (id q) (english_text q) (hindi_text q) (question_type q) (options q)
     (tables q) (images q) v (solution_english q)
     (solution_hindi q) (grading q) (confidence q) (flags q)
     (needs_image q) (raw_english q) (raw_hindi q).

Definition with_solution_english (v : option jsstring) (q : t) : t :=
  mk (id q) (english_text q) (hindi_text q) (question_type q) (options q)
     (tables q) (images q) (answer q) v
     (solution_hindi q) (grading q) (confidence q) (flags q)
     (needs_image q) (raw_english q) (raw_hindi q).

Definition with_solution_hindi (v : option jsstring) (q : t) : t :=
  mk (id q) (english_text q) (hindi_text q) (question_type q) (options q)
     (tables q) (images q) (answer q) (solution_english q)
     v (grading q) (confidence q) (flags q)
     (needs_image q) (raw_english q) (raw_hindi q).

Definition with_grading (v : option jsstring) (q : t) : t :=
  mk (id q) (english_text q) (hindi_text q) (question_type q) (options q)
     (tables q) (images q) (answer q) (solution_english q)
     (solution_hindi q) v (confidence q) (flags q)
     (needs_image q) (raw_english q) (raw_hindi q).
End Question.


(** ** Arrays

    [xs.filter((x, i) => p(x, i))]: the callback sees the element and its
    index in [xs].  ([xs.map((x, i) => f(x, i))] is stdpp's [imap], and a
    callback that ignores the index goes through [List.filter] and [fmap].) *)

Fixpoint filter_from {A} (p : A → nat → bool) (i : nat) (xs : list A) : list A :=
  match xs with
  | [] => []
  | x :: xs' =>
      if p x i then x :: filter_from p (S i) xs' else filter_from p (S i) xs'
  end.

Definition Array_filter {A} (p : A → nat → bool) (xs : list A) : list A :=
  filter_from p 0 xs.

(** [xs.find(p)], as far as the handlers use it: is there such an element. *)
Definition Array_find {A} (p : A → bool) (xs : list A) : option A :=
  List.find p xs.

(** [Math.max(x, ...xs)], for the non-empty argument lists the editor calls
    it with. *)
Definition Math_max (x : Z) (xs : list Z) : Z := foldr Z.max x xs.

(** Equality of strings, [s === t]. *)
Definition string_eqb (s t : jsstring) : bool := bool_decide (s = t).

(** ** Numbers and plain objects

    A JavaScript number is a binary64 floating-point number.
    [round_binary64 z] is the number an operation yields whose exact result
    is the integer [z]: [z] itself up to 2^53 in magnitude, and the nearest
    multiple of the spacing of the numbers beyond, ties to the even one.
    (The overflow to [Infinity], from 2^1024 on, is not modelled.) *)
Definition round_binary64 (z : Z) : Z :=
  let a := Z.abs z in
  if (a <=? 2 ^ 53)%Z then z
  else
    let u := (2 ^ (Z.log2 a - 52))%Z in
    let q := (a / u)%Z in
    let r := (a mod u)%Z in
    (Z.sgn z
     * ((if (2 * r <? u)%Z then q
         else if (u <? 2 * r)%Z then q + 1
         else if Z.even q then q else q + 1) * u))%Z.

(** The names every plain object inherits from [Object.prototype]:
    [obj[key]] finds a function under them (the prototype itself under
    [__proto__]) when [obj] has no property of its own of that name. *)
Definition Object_prototype_keys : list (list N) :=
  lit <$> ["constructor"; "hasOwnProperty"; "isPrototypeOf";
           "propertyIsEnumerable"; "toLocaleString"; "toString"; "valueOf";
           "__defineGetter__"; "__defineSetter__"; "__lookupGetter__";
           "__lookupSetter__"; "__proto__"]%string.

(** ** The upload of an image

    A [File] is what the browser hands over; the server answers each upload
    with the stored image's data or fails.  [Server] is the list of answers
    the coming requests will get, in order, and a request that finds none
    left fails, which is what [uploadImage] turns every error into. *)

Record File := { file_name : jsstring; file_bytes : list N }.

Record UploadedImage := {
  file : File;
  preview : jsstring;
  upload_id : jsstring;
  uploaded : option ImageData.t;
}.

Abbreviation Server := (list (option ImageData.t)) (only parsing).

Definition Net (A : Type) : Type := Server → A * Server.

Definition net_ret {A} (a : A) : Net A := λ s, (a, s).

Definition net_bind {A B} (m : Net A) (k : A → Net B) : Net B :=
  λ s, let '(a, s') := m s in k a s'.

Notation "x ←ₙ m ; k" := (net_bind m (λ x, k))
  (at level 20, m at level 100, k at level 200, right associativity,
   format "x  ←ₙ  m ;  '/' k").

(** [uploadImage]: the request's answer, [null] for a failed one.  The file
    is [None] where the caller passes [undefined]; the request is sent all
    the same. *)
Definition uploadImage (jobId : jsstring) (f : option File) : Net (option ImageData.t) :=
  λ s, match s with
       | answer :: s' => (answer, s')
       | [] => (None, [])
       end.

(** The loop over the images of the question: every image that uploads is
    pushed on the result, in order. *)
Fixpoint uploadQuestionImages (jobId : jsstring) (imgs : list UploadedImage)
    (acc : list ImageData.t) : Net (list ImageData.t) :=
  match imgs with
  | [] => net_ret acc
  | img :: imgs' =>
      up ←ₙ uploadImage jobId (Some (file img));
      uploadQuestionImages jobId imgs'
        (match up with Some d => acc ++ [d] | None => acc end)
  end.

(** The text an option gets when its image has uploaded:
    [opt.english_text + (opt.english_text ? ' ' : '') + `[Image: ${filename}]`]. *)
Definition image_reference (opt : Option.t) (d : ImageData.t) : jsstring :=
  Option.english_text opt
  ++ (if truthy (Option.english_text opt) then lit " " else [])
  ++ lit "[Image: " ++ ImageData.filename d ++ lit "]".

(** [optionImages[label]], as far as the loop below uses it: the [file] of
    what the lookup finds, if it finds something truthy.  [optionImages] is
    a plain object, so under a label that is the name of an inherited
    member and no key of its own the lookup finds that member, which has no
    [file]. *)
Definition optionImage_file (optionImages : gmap (list N) UploadedImage)
    (label : jsstring) : option (option File) :=
  match optionImages !! label with
  | Some optImage => Some (Some (file optImage))
  | None =>
      if bool_decide (label ∈ Object_prototype_keys) then Some None else None
  end.

(** The loop over the options: the option at each index is looked up in
    [optionImages] by its label, and replaced when its image uploads. *)
Fixpoint uploadOptionImages (jobId : jsstring)
    (optionImages : gmap (list N) UploadedImage) (opts : list Option.t)
    : Net (list Option.t) :=
  match opts with
  | [] => net_ret []
  | opt :: opts' =>
      opt' ←ₙ match optionImage_file optionImages (Option.label opt) with
              | Some optFile =>
                  up ←ₙ uploadImage jobId optFile;
                  net_ret (match up with
                           | Some d =>
                               Option.with_english_text (image_reference opt d) opt
                           | None => opt
                           end)
              | None => net_ret opt
              end;
      rest ←ₙ uploadOptionImages jobId optionImages opts';
      net_ret (opt' :: rest)
  end.

(** ** Option labels

    Both editors of an option list label by position, out of the same table:
    [labels[i] || `O${i + 1}`]. *)

Definition labels : list (list N) :=
  lit <$> ["A"; "B"; "C"; "D"; "E"; "F"; "G"; "H"]%string.

Definition label_at (i : nat) : jsstring :=
  match labels !! i with
  | Some l => if truthy l then l else lit "O" ++ Number_toString (i + 1)
  | None => lit "O" ++ Number_toString (i + 1)
  end.

(** ** More of strings: [includes], [endsWith], [replace] *)

(** [s.includes(t)] *)
Fixpoint String_includes (t s : jsstring) : bool :=
  bool_decide (t `prefix_of` s)
  || match s with
     | [] => false
     | _ :: s' => String_includes t s'
     end.

(** [s.endsWith(t)] *)
Definition String_endsWith (t s : jsstring) : bool :=
  bool_decide (t `suffix_of` s).

(** [s.replace(t, r)] with a string [t]: the first occurrence of [t] is
    replaced ([r] is taken literally: the replacements of the source have no
    [$]). *)
Fixpoint String_replace (t r s : jsstring) : jsstring :=
  if bool_decide (t `prefix_of` s) then r ++ drop (length t) s
  else match s with
       | [] => []
       | c :: s' => c :: String_replace t r s'
       end.

(** [\d] *)
Definition is_digit (c : code_unit) : bool := ((48 <=? c) && (c <=? 57))%N.

(** The rest of a string after its leading digits. *)
Fixpoint skip_digits (s : jsstring) : jsstring :=
  match s with
  | c :: s' => if is_digit c then skip_digits s' else s
  | [] => []
  end.

(** A match of [/-(\d+)after/] at the start of [s], for a literal [after]
    that begins with a character that is no digit (a dot, in the source):
    [-], then all the digits there are, at least one, then [after].  What
    follows the match is returned.  (The greedy [\d+] cannot give a digit
    back: the literal does not start with one.) *)
Definition match_port (after s : jsstring) : option jsstring :=
  match s with
  | c :: (d :: _) as s' =>
      if (c =? 45)%N && is_digit d
      then let rest := skip_digits s' in
           if bool_decide (after `prefix_of` rest)
           then Some (drop (length after) rest)
           else None
      else None
  | _ => None
  end.

(** [s.replace(/-(\d+)after/, '-8000' + after)]: the leftmost match is
    replaced. *)
Fixpoint replace_port (after s : jsstring) : jsstring :=
  match match_port after s with
  | Some rest => lit "-8000" ++ after ++ rest
  | None =>
      match s with
      | [] => []
      | c :: s' => c :: replace_port after s'
      end
  end.

(** ** The files of a file input *)

(** A file of the [FileList] of an event, with what the handler obtains for
    it: the object URL of [URL.createObjectURL] and the [Date.now()] of the
    moment its id is built. *)
Record Picked := { picked_file : File; object_url : jsstring; picked_at : nat }.

(** [`img_${Date.now()}_${i}`] *)
Definition image_id (now i : nat) : jsstring :=
  lit "img_" ++ Number_toString now ++ lit "_" ++ Number_toString i.

(** [`opt_img_${optionLabel}_${Date.now()}`] *)
Definition option_image_id (optionLabel : jsstring) (now : nat) : jsstring :=
  lit "opt_img_" ++ optionLabel ++ lit "_" ++ Number_toString now.

(** The loop of [handleQuestionImageSelect] over the files: [newImages]. *)
Definition new_images (files : list Picked) : list UploadedImage :=
  imap (λ i p, Build_UploadedImage (picked_file p) (object_url p)
                 (image_id (picked_at p) i) None) files.

(** The image [handleOptionImageSelect] stores for [e.target.files?.[0]]. *)
Definition option_image (optionLabel : jsstring) (p : Picked) : UploadedImage :=
  Build_UploadedImage (picked_file p) (object_url p)
    (option_image_id optionLabel (picked_at p)) None.

(** ** The address of the back end

    [window.location], as far as [getApiUrl] reads it; [None] is a page
    rendered without a window. *)

Record Location := { hostname : jsstring; origin : jsstring }.

(** The address [uploadImage] posts to. *)
Definition upload_url (API_URL jobId : jsstring) : jsstring :=
  API_URL ++ lit "/jobs/" ++ jobId ++ lit "/upload-image".

(** ** PreviewEditor *)

Module PreviewEditor.

Inductive Filter := all | flagged | low_confidence_only.

Record State := mk {
  loading : bool;
  error : option jsstring;
  questions : list Question.t;
  expandedId : option Z;
  filter : Filter;
  englishCount : Z;
  hindiCount : Z;
  showAddForm : bool;
}.

(** [setQuestions(prev => f(prev))] *)
Definition setQuestions (f : list Question.t → list Question.t) (st : State) : State :=
  mk (loading st) (error st) (f (questions st)) (expandedId st) (filter st)
     (englishCount st) (hindiCount st) (showAddForm st).

Definition setExpandedId (e : option Z) (st : State) : State :=
  mk (loading st) (error st) (questions st) e (filter st)
     (englishCount st) (hindiCount st) (showAddForm st).

Definition setShowAddForm (b : bool) (st : State) : State :=
  mk (loading st) (error st) (questions st) (expandedId st) (filter st)
     (englishCount st) (hindiCount st) b.

Definition setFilter (f : Filter) (st : State) : State :=
  mk (loading st) (error st) (questions st) (expandedId st) f
     (englishCount st) (hindiCount st) (showAddForm st).

(** The state of a freshly mounted editor. *)
Definition initial : State := mk true None [] None all 0 0 false.


Definition handleUpdateQuestion (updated : Question.t) (st : State) : State :=
  setQuestions
    (λ prev, (λ q, if (Question.id q =? Question.id updated)%Z then updated else q) <$> prev)
    st.

Definition handleAddQuestion (newQuestion : Question.t) (st : State) : State :=
  setExpandedId (Some (Question.id newQuestion))
    (setShowAddForm false
       (setQuestions (λ prev, prev ++ [newQuestion]) st)).

(** [confirmed] is the answer of [window.confirm]. *)
Definition handleDeleteQuestion (id : Z) (confirmed : bool) (st : State) : State :=
  if confirmed then
    let st' :=
      setQuestions (λ prev, List.filter (λ q, negb (Question.id q =? id)%Z) prev) st in
    if bool_decide (expandedId st = Some id) then setExpandedId None st' else st'
  else st.

Definition filteredQuestions (st : State) : list Question.t :=
  List.filter
    (λ q, match filter st with
          | flagged => 0 <? length (Question.flags q)
          | low_confidence_only => PrimFloat.ltb (Question.confidence q) 0.7%float
          | all => true
          end)
    (questions st).

(** The counts the two filter buttons show. *)
Definition flaggedCount (st : State) : nat :=
  length (List.filter (λ q, 0 <? length (Question.flags q)) (questions st)).

Definition lowConfidenceCount (st : State) : nat :=
  length (List.filter (λ q, PrimFloat.ltb (Question.confidence q) 0.7%float) (questions st)).

(** The [nextId] the add-question form is mounted with:
    [questions.length > 0 ? Math.max(...questions.map(q => q.id)) + 1 : 1].
    The sum is a number: beyond 2^53 it is rounded. *)
Definition nextId (st : State) : Z :=
  match Question.id <$> questions st with
  | [] => 1
  | i :: ids => round_binary64 (Math_max i ids + 1)
  end.

(** [getApiUrl], as this file has it. *)
Definition getApiUrl (window : option Location) : jsstring :=
  match window with
  | Some location =>
      if String_includes (lit "app.github.dev") (hostname location)
      then replace_port (lit ".app.github.dev") (origin location)
      else if String_includes (lit "github.dev") (hostname location)
      then replace_port (lit ".") (origin location)
      else lit "http://localhost:8000"
  | None => lit "http://localhost:8000"
  end.

End PreviewEditor.

(** ** QuestionCard *)

Module QuestionCard.

Record State := mk {
  editing : bool;
  editData : Question.t;
  newQuestionImages : list UploadedImage;
  optionImages : gmap (list N) UploadedImage;
  uploading : bool;
}.

Definition setEditData (q : Question.t) (st : State) : State :=
  mk (editing st) q (newQuestionImages st) (optionImages st) (uploading st).

Definition setEditing (b : bool) (st : State) : State :=
  mk b (editData st) (newQuestionImages st) (optionImages st) (uploading st).

(** A card mounted on [question]. *)
Definition initial (question : Question.t) : State :=
  mk false question [] ∅ false.

(** [handleSave]: the state it leaves, and the question it hands to
    [onUpdate].  The uploaded images are pushed after the ones the question
    has.  Nothing is checked before [onUpdate] is called. *)
Definition handleSave (jobId : jsstring) (st : State) : Net (State * Question.t) :=
  uploadedQuestionImages ←ₙ
    uploadQuestionImages jobId (newQuestionImages st) (Question.images (editData st));
  updatedOptions ←ₙ
    uploadOptionImages jobId (optionImages st) (Question.options (editData st));
  let updatedData :=
    Question.with_options updatedOptions
      (Question.with_images uploadedQuestionImages (editData st)) in
  net_ret (mk false (editData st) [] ∅ false, updatedData).

Definition handleAddOption (st : State) : State :=
  let options := Question.options (editData st) in
  let nextLabel := label_at (length options) in
  let newOption := Option.empty nextLabel in
  setEditData (Question.with_options (options ++ [newOption]) (editData st)) st.

Definition handleRemoveOption (index : nat) (st : State) : State :=
  let options := Question.options (editData st) in
  if length options <=? 2 then st
  else
    let newOptions := Array_filter (λ _ i, negb (i =? index)) options in
    let relabeledOptions := imap (λ i opt, Option.with_label (label_at i) opt) newOptions in
    setEditData (Question.with_options relabeledOptions (editData st)) st.

(** The keys of the [descriptions] table of [getFlagDescription]. *)
Definition description_keys : list (list N) :=
  lit <$> ["EXTRA_OPTIONS"; "MISSING_OPTIONS"; "IMAGE_OPTIONS"; "NO_OPTIONS";
           "MISSING_ENGLISH"; "MISSING_HINDI"; "COUNT_MISMATCH"; "LOW_CONFIDENCE";
           "needs_image"; "options_need_images"]%string.

(** [flag.replace(/_/g, ' ')] *)
Definition replace_underscores (flag : jsstring) : jsstring :=
  (λ c, if (c =? 95)%N then 32%N else c) <$> flag.

(** What [getFlagDescription] answers: the text the table has under a key
    (the texts themselves are not modelled), the member the table inherits
    under a name of [Object.prototype] (a function or the prototype, no
    string), or the flag spelled out. *)
Inductive FlagDescription :=
  | entry_of (key : list N)
  | inherited_member (key : list N)
  | spelled_out (text : list N).

(** [descriptions[flag] || flag.replace(/_/g, ' ')]; every text of the
    table is non-empty, and an inherited member is truthy. *)
Definition getFlagDescription (flag : jsstring) : FlagDescription :=
  if bool_decide (flag ∈ description_keys) then entry_of flag
  else if bool_decide (flag ∈ Object_prototype_keys) then inherited_member flag
  else spelled_out (replace_underscores flag).

(** [getApiUrl], as this file has it. *)
Definition getApiUrl (window : option Location) : jsstring :=
  match window with
  | Some location =>
      if String_includes (lit "app.github.dev") (hostname location)
      then replace_port (lit ".app.github.dev") (origin location)
      else if String_includes (lit "github.dev") (hostname location)
      then replace_port (lit ".") (origin location)
      else lit "http://localhost:8000"
  | None => lit "http://localhost:8000"
  end.

Definition setNewQuestionImages (imgs : list UploadedImage) (st : State) : State :=
  mk (editing st) (editData st) imgs (optionImages st) (uploading st).

Definition setOptionImages (m : gmap (list N) UploadedImage) (st : State) : State :=
  mk (editing st) (editData st) (newQuestionImages st) m (uploading st).

(** [handleCancel], on a card mounted on [question]. *)
Definition handleCancel (question : Question.t) (st : State) : State :=
  mk false question [] ∅ (uploading st).

(** [handleQuestionImageSelect]; [files] is [e.target.files]. *)
Definition handleQuestionImageSelect (files : option (list Picked)) (st : State) : State :=
  match files with
  | None => st
  | Some fs => setNewQuestionImages (newQuestionImages st ++ new_images fs) st
  end.

(** [handleOptionImageSelect]; the file is [e.target.files?.[0]]. *)
Definition handleOptionImageSelect (optionLabel : jsstring)
    (files : option (list Picked)) (st : State) : State :=
  match files ≫= head with
  | None => st
  | Some p => setOptionImages (<[optionLabel := option_image optionLabel p]> (optionImages st)) st
  end.

Definition removeNewQuestionImage (id : jsstring) (st : State) : State :=
  setNewQuestionImages
    (List.filter (λ img, negb (string_eqb (upload_id img) id)) (newQuestionImages st)) st.

Definition removeExistingImage (imageId : jsstring) (st : State) : State :=
  setEditData
    (Question.with_images
       (List.filter (λ img, negb (string_eqb (ImageData.id img) imageId))
          (Question.images (editData st)))
       (editData st)) st.

Definition removeOptionImage (optionLabel : jsstring) (st : State) : State :=
  setOptionImages (delete optionLabel (optionImages st)) st.

(** [handleOptionChange].  The inputs call it with the index of an option of
    the list; for any other index the array it builds is no list of options
    (an object without a label, behind holes), which [None] stands for. *)
Definition handleOptionChange (index : nat) (f : Option.field) (value : jsstring)
    (st : State) : option State :=
  opt ← Question.options (editData st) !! index;
  Some (setEditData
          (Question.with_options
             (<[index := Option.with_field f value opt]> (Question.options (editData st)))
             (editData st)) st).

End QuestionCard.

(** ** AddQuestionForm *)

Module AddQuestionForm.

Record Props := { jobId : jsstring; nextId : Z }.

Record FormData := mkFormData {
  english_text : jsstring;
  hindi_text : jsstring;
  question_type : QuestionType;
  answer : jsstring;
  solution_english : jsstring;
  solution_hindi : jsstring;
  grading : jsstring;
}.

Record State := mk {
  formData : FormData;
  options : list Option.t;
  questionImages : list UploadedImage;
  optionImages : gmap (list N) UploadedImage;
  uploading : bool;
  error : option jsstring;
}.

Definition setFormData (fd : FormData) (st : State) : State :=
  mk fd (options st) (questionImages st) (optionImages st) (uploading st) (error st).

Definition setOptions (os : list Option.t) (st : State) : State :=
  mk (formData st) os (questionImages st) (optionImages st) (uploading st) (error st).

Definition setUploading (b : bool) (st : State) : State :=
  mk (formData st) (options st) (questionImages st) (optionImages st) b (error st).

Definition setError (e : option jsstring) (st : State) : State :=
  mk (formData st) (options st) (questionImages st) (optionImages st) (uploading st) e.

(** [{ ...formData, answer: a }] *)
Definition with_answer (a : jsstring) (fd : FormData) : FormData :=
  mkFormData (english_text fd) (hindi_text fd) (question_type fd) a
    (solution_english fd) (solution_hindi fd) (grading fd).

(** The form as it opens. *)
Definition initial : State :=
  mk (mkFormData [] [] multiple_choice [] [] [] (lit "+4/-1"))
     [Option.empty (lit "A"); Option.empty (lit "B");
      Option.empty (lit "C"); Option.empty (lit "D")]
     [] ∅ false None.

Definition handleAddOption (st : State) : State :=
  let nextLabel := label_at (length (options st)) in
  setOptions (options st ++ [Option.empty nextLabel]) st.

Definition handleRemoveOption (index : nat) (st : State) : State :=
  if length (options st) <=? 2 then st
  else
    let newOptions := Array_filter (λ _ i, negb (i =? index)) (options st) in
    let relabeledOptions := imap (λ i opt, Option.with_label (label_at i) opt) newOptions in
    let st' := setOptions relabeledOptions st in
    if truthy (answer (formData st))
       && negb (bool_decide (is_Some
            (Array_find (λ o, string_eqb (Option.label o) (answer (formData st)))
               relabeledOptions)))
    then setFormData (with_answer [] (formData st)) st'
    else st'.

(** [s || undefined] *)
Definition or_undefined (s : jsstring) : option jsstring :=
  if truthy s then Some s else None.

(** [handleSubmit]: the state it leaves, and the question it hands to
    [onAdd] when it gets that far. *)
Definition handleSubmit (props : Props) (st : State) : Net (State * option Question.t) :=
  let fd := formData st in
  if negb (truthy (trim (english_text fd))) && negb (truthy (trim (hindi_text fd))) then
    net_ret (setError (Some (lit "Please enter question text (English or Hindi)")) st, None)
  else if bool_decide (question_type fd = multiple_choice)
          && (length (List.filter Option.has_text (options st)) <? 2) then
    net_ret
      (setError
         (Some (lit "Please enter at least 2 options for multiple choice questions")) st,
       None)
  else
    uploadedQuestionImages ←ₙ uploadQuestionImages (jobId props) (questionImages st) [];
    updatedOptions ←ₙ uploadOptionImages (jobId props) (optionImages st) (options st);
    let newQuestion :=
      Question.mk (nextId props) (english_text fd) (hindi_text fd) (question_type fd)
        (List.filter Option.has_text updatedOptions)
        [] uploadedQuestionImages
        (or_undefined (answer fd))
        (or_undefined (solution_english fd))
        (or_undefined (solution_hindi fd))
        (or_undefined (grading fd))
        1%float [] None None None in
    net_ret (setUploading false (setError None (setUploading true st)), Some newQuestion).

(** [getApiUrl], as this file has it. *)
Definition getApiUrl (window : option Location) : jsstring :=
  match window with
  | Some location =>
      if String_includes (lit "github.dev") (hostname location)
      then String_replace (lit "5173") (lit "8000") (origin location)
      else if String_includes (lit "app.github.dev") (hostname location)
      then String_replace (lit "5173") (lit "8000") (origin location)
      else lit "http://localhost:8000"
  | None => lit "http://localhost:8000"
  end.

End AddQuestionForm.

(** ** The pipeline: Bilingual Aligner, Confidence & Flag Engine

    The records the editor reviews come from the back end.  Its two last
    steps are modelled from the specification (sections 3, 4.2, 4.5 and
    4.6).  A confidence is an exact rational here: the rounding of binary
    floating point is not modelled. *)

Module Pipeline.

(** Modelled from the spec: OptionRecord, [{label, text, image_ref?}]. *)
Record OptionRecord := {
  label : jsstring;
  option_text : jsstring;
  image_ref : option jsstring;
}.

(** Modelled from the spec: the rule of the Segmenter's priority chain that
    found the boundary of a question. *)
Inductive BoundaryRule := numbered_lead | heading_rule | option_density.

(** Modelled from the spec: boundary confidence, rule 1 → 1.0, rule 2 → 0.8,
    rule 3 → 0.5. *)
Definition boundary_confidence (rule : BoundaryRule) : Q :=
  match rule with
  | numbered_lead => 1
  | heading_rule => 8 # 10
  | option_density => 5 # 10
  end%Q.

(** Modelled from the spec: MonolingualQuestionRecord, with the rule that
    found the boundary of its QuestionBlockGroup.  Tables and images are
    references. *)
Record MonolingualQuestionRecord := {
  sequence_index : nat;
  declared_ordinal : option Z;
  text : jsstring;
  options : list OptionRecord;
  tables : list jsstring;
  images : list jsstring;
  boundary : BoundaryRule;
}.

(** Modelled from the spec: the [start_confidence] of the group a record
    was extracted from, the value the engine starts from. *)
Definition start_confidence (m : MonolingualQuestionRecord) : Q :=
  boundary_confidence (boundary m).

(** Modelled from the spec: BilingualOption,
    [{label, english_text (default empty), hindi_text (default empty)}]. *)
Record BilingualOption := {
  merged_label : jsstring;
  english_text : jsstring;
  hindi_text : jsstring;
}.

(** Modelled from the spec: BilingualQuestionRecord, the output of the core. *)
Record BilingualQuestionRecord := mk {
  id : Z;
  english : option MonolingualQuestionRecord;
  hindi : option MonolingualQuestionRecord;
  merged_options : list BilingualOption;
  record_tables : list jsstring;
  record_images : list jsstring;
  confidence : Q;
  flags : list QuestionFlag;
}.

(** Modelled from the spec: the anchor language of a record, English,
    falling back to Hindi. *)
Definition anchor (r : BilingualQuestionRecord) : option MonolingualQuestionRecord :=
  match english r with
  | Some e => Some e
  | None => hindi r
  end.

(** Modelled from the spec: the options of the two sides merged position by
    position, a missing side defaulted to the empty string. *)
Fixpoint merge_options (en hi : list OptionRecord) : list BilingualOption :=
  match en, hi with
  | e :: en', h :: hi' =>
      Build_BilingualOption (label e) (option_text e) (option_text h)
      :: merge_options en' hi'
  | e :: en', [] =>
      Build_BilingualOption (label e) (option_text e) [] :: merge_options en' []
  | [], hi => (λ h, Build_BilingualOption (label h) [] (option_text h)) <$> hi
  end.

(** Modelled from the spec: a side is missing when it is absent or its text
    is empty. *)
Definition side_missing (m : option MonolingualQuestionRecord) : bool :=
  match m with
  | Some r => negb (truthy (text r))
  | None => true
  end.

(** Modelled from the spec: the options of a side, none for an absent one. *)
Definition side_options (m : option MonolingualQuestionRecord) : list OptionRecord :=
  match m with
  | Some r => options r
  | None => []
  end.

(** Modelled from the spec: the flags the Aligner emits for one record:
    [count_mismatch] on every record of a job whose two sequences differ in
    length, [missing_english] and [missing_hindi] per record, and
    [incomplete_options] when the two option counts differ.  (The two
    image flags depend on notes of the extraction step, which this model
    does not carry.) *)
Definition aligner_flags (mismatch : bool)
    (en hi : option MonolingualQuestionRecord) : list QuestionFlag :=
  (if mismatch then [count_mismatch] else [])
  ++ (if side_missing en then [missing_english] else [])
  ++ (if side_missing hi then [missing_hindi] else [])
  ++ (if bool_decide (length (side_options en) = length (side_options hi))
      then [] else [incomplete_options]).

(** Modelled from the spec: the record of output position [i], created by
    the Aligner from what the two sequences have at that position.  Its
    confidence starts at the boundary confidence of the anchor language. *)
Definition pair_at (mismatch : bool) (i : nat)
    (en hi : option MonolingualQuestionRecord) : BilingualQuestionRecord :=
  let a := match en with Some e => Some e | None => hi end in
  mk (Z.of_nat i + 1) en hi
     (merge_options (side_options en) (side_options hi))
     (from_option tables [] a) (from_option images [] a)
     (from_option start_confidence 0%Q a)
     (aligner_flags mismatch en hi).

(** Modelled from the spec: strict index pairing.  Position [i] of English
    pairs with position [i] of Hindi; beyond the shorter sequence the
    records are single-language. *)
Definition align (en hi : list MonolingualQuestionRecord) : list BilingualQuestionRecord :=
  let mismatch := negb (length en =? length hi) in
  (λ i, pair_at mismatch i (en !! i) (hi !! i))
    <$> seq 0 (length en `max` length hi).

(** Modelled from the spec: flags are a set; [has f fs] is membership. *)
Definition has (f : QuestionFlag) (fs : list QuestionFlag) : bool :=
  bool_decide (f ∈ fs).

(** Modelled from the spec: the penalties of section 4.6, each applied once
    when its flag is set, and compounded: ×0.7 [missing_options]; ×0.8
    [missing_english] or [missing_hindi]; ×0.85 [ambiguous_numbering]; ×0.9
    a complex table; ×0.9 [incomplete_options]; ×0.75 [count_mismatch]. *)
Definition penalty (fs : list QuestionFlag) : Q :=
  ((if has missing_options fs then 7 # 10 else 1)
   * (if has missing_english fs || has missing_hindi fs then 8 # 10 else 1)
   * (if has ambiguous_numbering fs then 85 # 100 else 1)
   * (if has complex_table fs then 9 # 10 else 1)
   * (if has incomplete_options fs then 9 # 10 else 1)
   * (if has count_mismatch fs then 75 # 100 else 1))%Q.

(** Modelled from the spec: the final confidence is clamped to [0, 1]. *)
Definition clamp (q : Q) : Q :=
  (if Qlt_le_dec q 0 then 0 else if Qlt_le_dec 1 q then 1 else q)%Q.

(** Modelled from the spec: the configured threshold, at its default. *)
Definition threshold : Q := (7 # 10)%Q.

(** Modelled from the spec: the confidence of a record, recomputed from the
    boundary confidence of its anchor and its flags. *)
Definition recompute_confidence (r : BilingualQuestionRecord) : Q :=
  clamp (from_option start_confidence 0 (anchor r) * penalty (flags r))%Q.

(** Modelled from the spec: the Confidence & Flag Engine on one record: it
    updates [confidence] and [flags] and nothing else, and a record below
    the threshold receives [low_confidence]. *)
Definition score (r : BilingualQuestionRecord) : BilingualQuestionRecord :=
  let c := recompute_confidence r in
  let diagnostic := List.filter (λ f, negb (bool_decide (f = low_confidence))) (flags r) in
  mk (id r) (english r) (hindi r) (merged_options r) (record_tables r)
     (record_images r) c
     (if Qlt_le_dec c threshold then diagnostic ++ [low_confidence] else diagnostic).

(** Modelled from the spec: [{ ...r, flags: flags ∪ {f} }], a record with
    one more flag. *)
Definition add_flag (f : QuestionFlag) (r : BilingualQuestionRecord) : BilingualQuestionRecord :=
  mk (id r) (english r) (hindi r) (merged_options r) (record_tables r)
     (record_images r) (confidence r)
     (if has f (flags r) then flags r else flags r ++ [f]).

(** Modelled from the spec: the flags section 4.6 attaches a penalty to. *)
Definition penalized (f : QuestionFlag) : bool :=
  match f with
  | missing_options | missing_english | missing_hindi | ambiguous_numbering
  | complex_table | incomplete_options | count_mismatch => true
  | _ => false
  end.

(** Modelled from the spec: what [extract] returns once the two documents
    are segmented and extracted,
    [{records, english_count, hindi_count}]. *)
Record JobResult := {
  records : list BilingualQuestionRecord;
  english_count : nat;
  hindi_count : nat;
}.

(** Modelled from the spec: the join of the pipeline, Aligner then engine. *)
Definition extract (en hi : list MonolingualQuestionRecord) : JobResult :=
  {| records := score <$> align en hi;
     english_count := length en;
     hindi_count := length hi |}.

(** Modelled from the spec: the job carries [count_mismatch] when the two
    counts differ. *)
Definition job_count_mismatch (job : JobResult) : bool :=
  negb (english_count job =? hindi_count job).

End Pipeline.

(** ** FileUpload *)

Module FileUpload.

Inductive Side := english | hindi.

(** What the component tells its parent. *)
Inductive Callback :=
  | onUploadComplete (jobId : list N)
  | onError (error : list N).

Record State := mk {
  englishFile : option File;
  hindiFile : option File;
  uploading : bool;
  dragOver : option Side;
}.

Definition initial : State := mk None None false None.

Definition setFile (type : Side) (f : option File) (st : State) : State :=
  match type with
  | english => mk f (hindiFile st) (uploading st) (dragOver st)
  | hindi => mk (englishFile st) f (uploading st) (dragOver st)
  end.

Definition setUploading (b : bool) (st : State) : State :=
  mk (englishFile st) (hindiFile st) b (dragOver st).

Definition setDragOver (d : option Side) (st : State) : State :=
  mk (englishFile st) (hindiFile st) (uploading st) d.

(** [getApiUrl], as this file has it. *)
Definition getApiUrl (window : option Location) : jsstring :=
  match window with
  | Some location =>
      if String_includes (lit "app.github.dev") (hostname location)
      then replace_port (lit ".app.github.dev") (origin location)
      else if String_includes (lit "github.dev") (hostname location)
      then replace_port (lit ".") (origin location)
      else lit "http://localhost:8000"
  | None => lit "http://localhost:8000"
  end.

(** [handleDrop]; [files] is [e.dataTransfer.files]. *)
Definition handleDrop (files : list File) (type : Side) (st : State)
    : State * option Callback :=
  let st' := setDragOver None st in
  match head files with
  | Some f =>
      if String_endsWith (lit ".docx") (file_name f)
      then (setFile type (Some f) st', None)
      else (st', Some (onError (lit "Please upload a .docx file")))
  | None => (st', Some (onError (lit "Please upload a .docx file")))
  end.

(** [handleFileChange]; the file is [e.target.files?.[0]]. *)
Definition handleFileChange (files : option (list File)) (type : Side) (st : State) : State :=
  match files ≫= head with
  | Some f => setFile type (Some f) st
  | None => st
  end.

(** [handleUpload], given how the request goes if it is made: the [job_id]
    of the response, or the message of the error that is thrown. *)
Definition handleUpload (outcome : list N + list N) (st : State) : State * Callback :=
  match englishFile st, hindiFile st with
  | Some _, Some _ =>
      (setUploading false (setUploading true st),
       match outcome with
       | inl job_id => onUploadComplete job_id
       | inr message => onError message
       end)
  | _, _ => (st, onError (lit "Please select both English and Hindi files"))
  end.

End FileUpload.

(** ** App *)

Module App.

(** [getApiUrl], as this file has it. *)
Definition getApiUrl (window : option Location) : jsstring :=
  match window with
  | Some location =>
      if String_includes (lit "github.dev") (hostname location)
      then String_replace (lit "5173") (lit "8000") (origin location)
      else if String_includes (lit "app.github.dev") (hostname location)
      then String_replace (lit "5173") (lit "8000") (origin location)
      else lit "http://localhost:8000"
  | None => lit "http://localhost:8000"
  end.

End App.

(** ** Vocabulary of the properties *)



(** The ids of a question list, in order. *)
Definition ids (qs : list Question.t) : list Z := Question.id <$> qs.

(** [records[i].id == i + 1], for all [i]. *)
Definition ids_by_position (qs : list Question.t) : Prop :=
  ∀ (i : nat) (q : Question.t), qs !! i = Some q → Question.id q = (Z.of_nat i + 1)%Z.

(** The ids are strictly increasing and start at 1 or above. *)
Definition ids_increasing (qs : list Question.t) : Prop :=
  StronglySorted Z.lt (ids qs) ∧ Forall (Z.le 1) (ids qs).

(** The ids are below 2^53, where every integer is a number and the sum
    of [nextId] is exact. *)
Definition ids_safe (qs : list Question.t) : Prop :=
  Forall (λ x, x < 2 ^ 53)%Z (ids qs).


(** The question a card hands to [onUpdate] when Save is clicked. *)
Definition saved_question (jobId : jsstring) (card : QuestionCard.State)
    (server : list (option ImageData.t)) : Question.t :=
  (QuestionCard.handleSave jobId card server).1.2.

(** The labels of an option list, in order. *)
Definition labels_of (os : list Option.t) : list (list N) := Option.label <$> os.

(** The alphabet A, B, C, …, one label per letter. *)
Definition alphabet : list (list N) :=
  (λ c, [c]) <$> lit "ABCDEFGHIJKLMNOPQRSTUVWXYZ".

(** The labels are a dense prefix of the alphabet, A, B, C, … by position. *)
Definition alphabet_prefix (os : list Option.t) : Prop :=
  length os ≤ length alphabet ∧ labels_of os = take (length os) alphabet.

(** The labels are the ones the editors assign by position. *)
Definition labelled_by_position (os : list Option.t) : Prop :=
  ∀ (i : nat) (o : Option.t), os !! i = Some o → Option.label o = label_at i.

(** What the user does to the question list: a card saves a question, the
    form submits one (it carries the [nextId] the form was mounted with), a
    card's delete button is clicked and the dialog answered. *)
Inductive EditorEvent :=
  | saved (updated : Question.t)
  | submitted (newQuestion : Question.t)
  | delete_clicked (id : Z) (confirmed : bool).

Definition editor_step (st : PreviewEditor.State) (ev : EditorEvent) : PreviewEditor.State :=
  match ev with
  | saved updated => PreviewEditor.handleUpdateQuestion updated st
  | submitted newQuestion =>
      PreviewEditor.handleAddQuestion
        (Question.with_id (PreviewEditor.nextId st) newQuestion) st
  | delete_clicked id confirmed => PreviewEditor.handleDeleteQuestion id confirmed st
  end.

(** What the user does to the option list of the form. *)
Inductive OptionEvent :=
  | add_clicked
  | remove_clicked (index : nat).

Definition form_step (st : AddQuestionForm.State) (ev : OptionEvent) : AddQuestionForm.State :=
  match ev with
  | add_clicked => AddQuestionForm.handleAddOption st
  | remove_clicked index => AddQuestionForm.handleRemoveOption index st
  end.

(** A run of remove-option clicks, on either editor. *)
Definition remove_all_form (indices : list nat) (st : AddQuestionForm.State) :=
  foldl (λ s index, AddQuestionForm.handleRemoveOption index s) st indices.

Definition remove_all_card (indices : list nat) (st : QuestionCard.State) :=
  foldl (λ s index, QuestionCard.handleRemoveOption index s) st indices.

(** The option list a card is editing. *)
Definition card_options (st : QuestionCard.State) : list Option.t :=
  Question.options (QuestionCard.editData st).

(** What the editors keep of an option list: positional labels, which are
    pairwise distinct and, up to the eighth option, the alphabet's. *)
Definition well_labelled (os : list Option.t) : Prop :=
  labelled_by_position os
  ∧ NoDup (labels_of os)
  ∧ (length os ≤ 8 → alphabet_prefix os).

(** What the user does to a card in edit mode, save and cancel apart: the
    inputs and selects of the question, the inputs of an option (they exist
    for the options of the list), the buttons of the option list and of the
    images. *)
Inductive CardEvent :=
  | edit_clicked
  | english_typed (value : list N)
  | hindi_typed (value : list N)
  | type_selected (value : QuestionType)
  | answer_selected (value : list N)
  | solution_english_typed (value : list N)
  | solution_hindi_typed (value : list N)
  | grading_typed (value : list N)
  | option_typed (index : nat) (f : Option.field) (value : list N)
  | add_option_clicked
  | remove_option_clicked (index : nat)
  | images_picked (files : option (list Picked))
  | new_image_removed (id : list N)
  | existing_image_removed (id : list N)
  | option_image_picked (optionLabel : list N) (files : option (list Picked))
  | option_image_removed (optionLabel : list N).

Definition card_step (st : QuestionCard.State) (ev : CardEvent) : QuestionCard.State :=
  let edit f := QuestionCard.setEditData (f (QuestionCard.editData st)) st in
  match ev with
  | edit_clicked => QuestionCard.setEditing true st
  | english_typed v => edit (Question.with_english_text v)
  | hindi_typed v => edit (Question.with_hindi_text v)
  | type_selected v => edit (Question.with_question_type v)
  | answer_selected v => edit (Question.with_answer (Some v))
  | solution_english_typed v => edit (Question.with_solution_english (Some v))
  | solution_hindi_typed v => edit (Question.with_solution_hindi (Some v))
  | grading_typed v => edit (Question.with_grading (Some v))
  | option_typed index f v => default st (QuestionCard.handleOptionChange index f v st)
  | add_option_clicked => QuestionCard.handleAddOption st
  | remove_option_clicked index => QuestionCard.handleRemoveOption index st
  | images_picked files => QuestionCard.handleQuestionImageSelect files st
  | new_image_removed id => QuestionCard.removeNewQuestionImage id st
  | existing_image_removed id => QuestionCard.removeExistingImage id st
  | option_image_picked l files => QuestionCard.handleOptionImageSelect l files st
  | option_image_removed l => QuestionCard.removeOptionImage l st
  end.

(** What the review of a record rests on, which no input of the card
    writes. *)
Definition review_data (q : Question.t) :=
  (Question.id q, Question.confidence q, Question.flags q, Question.tables q,
   Question.needs_image q, Question.raw_english q, Question.raw_hindi q).

(** A file dropped on one of the two boxes of the upload page. *)
Definition drop_step (st : FileUpload.State) (ev : list File * FileUpload.Side)
    : FileUpload.State :=
  (FileUpload.handleDrop ev.1 ev.2 st).1.

(** The files the upload page holds are named [….docx]. *)
Definition holds_docx (st : FileUpload.State) : Prop :=
  ∀ (type : FileUpload.Side) (f : File),
    match type with
    | FileUpload.english => FileUpload.englishFile st
    | FileUpload.hindi => FileUpload.hindiFile st
    end = Some f →
    String_endsWith (lit ".docx") (file_name f) = true.

(** All the code units of a string are digits. *)
Definition all_digits (s : list N) : Prop := Forall (λ c, is_digit c = true) s.

(** ** Sample inputs *)

(** A clean question with three options, of the given id. *)
Definition sample_question (id : Z) : Question.t :=
  Question.mk id (lit "2 + 2 = ?") [] multiple_choice
    [Option.mk (lit "A") (lit "3") [] None None;
     Option.mk (lit "B") (lit "4") [] None None;
     Option.mk (lit "C") (lit "5") [] None None]
    [] [] (Some (lit "B")) None None None 1%float [] None None None.

(** An editor showing the questions 1, 2 and 3. *)
Definition sample_editor : PreviewEditor.State :=
  PreviewEditor.mk false None
    [sample_question 1; sample_question 2; sample_question 3]
    (Some 1%Z) PreviewEditor.all 3 3 false.


(** A flagged question of confidence 0.69, and a clean one at the
    threshold. *)
Definition doubtful_question : Question.t :=
  Question.mk 1 (lit "first") [] integer [] [] [] None None None None
    0.69%float [lit "missing_hindi"] None None None.

Definition borderline_question : Question.t :=
  Question.mk 2 (lit "second") [] integer [] [] [] None None None None
    0.7%float [] None None None.

(** An editor whose three questions have the confidences 0.69, 0.7 and 1.0. *)
Definition graded_editor : PreviewEditor.State :=
  PreviewEditor.mk false None
    [doubtful_question; borderline_question; sample_question 3]
    None PreviewEditor.all 3 3 false.



(** The card of question 2 in edit mode, once both textareas are cleared. *)
Definition cleared_card : QuestionCard.State :=
  QuestionCard.setEditData
    (Question.with_hindi_text []
       (Question.with_english_text []
          (QuestionCard.editData
             (QuestionCard.setEditing true (QuestionCard.initial (sample_question 2))))))
    (QuestionCard.setEditing true (QuestionCard.initial (sample_question 2))).

(** A question whose options are labelled A, C and D, as the
    add-question form submits them when option B is left empty. *)
Definition gapped_question : Question.t :=
  Question.with_options
    [Option.mk (lit "A") (lit "3") [] None None;
     Option.mk (lit "C") (lit "4") [] None None;
     Option.mk (lit "D") (lit "5") [] None None]
    (sample_question 4).

(** An image file. *)
Definition sample_file : File := {| file_name := lit "a.png"; file_bytes := [137; 80; 78; 71]%N |}.

(** A form filled in with a question, a text for the options B and C, and
    an image to upload for option A. *)
Definition filled_form : AddQuestionForm.State :=
  AddQuestionForm.mk
    (AddQuestionForm.mkFormData (lit "2 + 2 = ?") [] multiple_choice (lit "B") [] []
       (lit "+4/-1"))
    [Option.mk (lit "A") [] [] None None;
     Option.mk (lit "B") (lit "4") [] None None;
     Option.mk (lit "C") [] (lit "5") None None;
     Option.empty (lit "D")]
    [] {[ lit "A" := Build_UploadedImage sample_file (lit "blob:1") (lit "opt_img_A_1") None ]}
    false None.

(** The form is mounted to add question 4. *)
Definition sample_props : AddQuestionForm.Props :=
  {| AddQuestionForm.jobId := lit "job"; AddQuestionForm.nextId := 4 |}.

(** The answers of a server that stores the first image it is sent. *)
Definition sample_server : list (option ImageData.t) :=
  [Some (ImageData.mk (lit "i1") (lit "a.png") (lit "/images/a.png") (lit "image/png"))].

(** A question of one language, found by its number. *)
Definition sample_monolingual (i : nat) (t : list N) : Pipeline.MonolingualQuestionRecord :=
  {| Pipeline.sequence_index := i;
     Pipeline.declared_ordinal := Some (Z.of_nat i + 1)%Z;
     Pipeline.text := t;
     Pipeline.options := [];
     Pipeline.tables := [];
     Pipeline.images := [];
     Pipeline.boundary := Pipeline.numbered_lead |}.

(** Three English questions and two Hindi ones. *)
Definition sample_english : list Pipeline.MonolingualQuestionRecord :=
  [sample_monolingual 0 (lit "one"); sample_monolingual 1 (lit "two");
   sample_monolingual 2 (lit "three")].

Definition sample_hindi : list Pipeline.MonolingualQuestionRecord :=
  [sample_monolingual 0 (lit "ek"); sample_monolingual 1 (lit "do")].

(** A clean bilingual record, found by a heading. *)
Definition clean_record : Pipeline.BilingualQuestionRecord :=
  Pipeline.mk 1
    (Some {| Pipeline.sequence_index := 0; Pipeline.declared_ordinal := Some 1%Z;
             Pipeline.text := lit "one"; Pipeline.options := [];
             Pipeline.tables := []; Pipeline.images := [];
             Pipeline.boundary := Pipeline.heading_rule |})
    (Some (sample_monolingual 0 (lit "ek")))
    [] [] [] (8 # 10)%Q [].

(** A page served by a Codespace on port 5174. *)
Definition codespace_5174 : Location :=
  {| hostname := lit "my-space-5174.app.github.dev";
     origin := lit "https://my-space-5174.app.github.dev" |}.

(** The form as it opens, filled in with a question and a text for the
    options A, C and D: option B is left empty. *)
Definition gapped_form : AddQuestionForm.State :=
  AddQuestionForm.mk
    (AddQuestionForm.mkFormData (lit "2 + 2 = ?") [] multiple_choice (lit "C") [] []
       (lit "+4/-1"))
    [Option.mk (lit "A") (lit "3") [] None None;
     Option.empty (lit "B");
     Option.mk (lit "C") (lit "4") [] None None;
     Option.mk (lit "D") (lit "5") [] None None]
    [] ∅ false None.

(** A flagged question of confidence 0.4, as a card shows it. *)
Definition flagged_question : Question.t :=
  Question.mk 7 (lit "2 + 2 = ") [] multiple_choice
    [Option.mk (lit "A") (lit "3") [] None None;
     Option.mk (lit "B") (lit "4") [] None None]
    [] [] None None None None 0.4%float
    [lit "missing_hindi"; lit "incomplete_options"] None None None.

(** The form with three options that say 3, 4 and 5, and the answer B. *)
Definition answered_form : AddQuestionForm.State :=
  AddQuestionForm.mk
    (AddQuestionForm.mkFormData (lit "2 + 2 = ?") [] multiple_choice (lit "B") [] []
       (lit "+4/-1"))
    [Option.mk (lit "A") (lit "3") [] None None;
     Option.mk (lit "B") (lit "4") [] None None;
     Option.mk (lit "C") (lit "5") [] None None]
    [] ∅ false None.

(** Two documents: a Word file and a PDF. *)
Definition docx_file : File := {| file_name := lit "paper.docx"; file_bytes := [80; 75]%N |}.
Definition pdf_file : File := {| file_name := lit "paper.pdf"; file_bytes := [37; 80]%N |}.

(** * Properties *)

(** ** Arrays and strings *)

Section arrays.
Context {A : Type}.
Implicit Types (xs : list A) (p : A → bool).

(** A filter on [i !== index] keeps everything once the indices have
    passed [index]. *)
Lemma filter_from_passed xs (k index : nat) :
  index < k → filter_from (λ (_ : A) i, negb (i =? index)) k xs = xs.
Proof.
  revert k. induction xs as [|x xs IH]; intros k Hk; [done|].
  simpl. destruct (Nat.eqb_spec k index) as [->|_]; [lia|].
  simpl. f_equal. apply IH. lia.
Qed.

(** Filtering on the index alone, with [i !== index], deletes position
    [index]. *)
Lemma filter_from_delete xs (k index : nat) :
  filter_from (λ (_ : A) i, negb (i =? k + index)) k xs = delete index xs.
Proof.
  revert k index. induction xs as [|x xs IH]; intros k index; [done|].
  destruct index as [|index]; simpl.
  - rewrite Nat.add_0_r, Nat.eqb_refl. simpl.
    apply filter_from_passed. lia.
  - destruct (Nat.eqb_spec k (k + S index)) as [Heq|_]; [lia|].
    simpl. f_equal.
    replace (k + S index) with (S k + index) by lia. apply IH.
Qed.

Lemma Array_filter_delete xs (index : nat) :
  Array_filter (λ (_ : A) i, negb (i =? index)) xs = delete index xs.
Proof. apply (filter_from_delete xs 0 index). Qed.

Lemma length_delete_le xs (i : nat) : length xs - 1 ≤ length (delete i xs).
Proof.
  revert i. induction xs as [|x xs IH]; intros [|i]; simpl; try lia.
  specialize (IH i). lia.
Qed.

(** A property of every position, as an equation between lists. *)
Lemma lookup_fmap_seq {B} (f : A → B) (g : nat → B) xs :
  (∀ (i : nat) (x : A), xs !! i = Some x → f x = g i)
  ↔ f <$> xs = g <$> seq 0 (length xs).
Proof.
  split.
  - intros Hpos. apply list_eq. intros i. rewrite !list_lookup_fmap.
    destruct (xs !! i) as [x|] eqn:Hx; simpl.
    + rewrite lookup_seq_lt by (by eapply lookup_lt_Some). simpl.
      f_equal. by apply Hpos.
    + rewrite lookup_seq_ge; [done|]. by apply lookup_ge_None.
  - intros Heq i x Hx.
    assert (Hi : (f <$> xs) !! i = Some (f x)) by (by rewrite list_lookup_fmap, Hx).
    rewrite Heq, list_lookup_fmap, lookup_seq_lt in Hi by (by eapply lookup_lt_Some).
    by injection Hi.
Qed.

Lemma List_filter_sublist p xs : List.filter p xs `sublist_of` xs.
Proof.
  induction xs as [|x xs IH]; simpl; [constructor|].
  destruct (p x); by constructor.
Qed.

Lemma elem_of_List_filter p xs x : x ∈ List.filter p xs ↔ x ∈ xs ∧ p x = true.
Proof. rewrite !list_elem_of_In. apply filter_In. Qed.

End arrays.

Lemma truthy_nil (s : list N) : truthy s = false ↔ s = [].
Proof. by destruct s. Qed.

Lemma truthy_app_r (s t : list N) : truthy t = true → truthy (s ++ t) = true.
Proof. by destruct s, t. Qed.

Lemma trim_nil : trim [] = [].
Proof. reflexivity. Qed.

(** ** C8: the frame of an update *)

Section update.
Import PreviewEditor.

(** C8.  [handleUpdateQuestion] with [updated] keeps the length of the
    list, puts [updated] at exactly the positions whose record has the id of
    [updated], and leaves the record of every other position as it was, so
    the relative order is kept. *)
Theorem handleUpdateQuestion_frame (updated : Question.t) (st : State) :
  length (questions (handleUpdateQuestion updated st)) = length (questions st)
  ∧ ∀ (i : nat) (q : Question.t),
      questions st !! i = Some q →
      (Question.id q = Question.id updated →
         questions (handleUpdateQuestion updated st) !! i = Some updated)
      ∧ (Question.id q ≠ Question.id updated →
         questions (handleUpdateQuestion updated st) !! i = Some q).
Proof.
  split; [apply length_fmap|].
  intros i q Hq. simpl. rewrite list_lookup_fmap, Hq. simpl.
  destruct (Z.eqb_spec (Question.id q) (Question.id updated)); split; congruence.
Qed.

(** The theorem on the editor showing questions 1, 2 and 3: an update of
    question 2 replaces the second record and no other. *)
Lemma handleUpdateQuestion_frame_witness :
  PreviewEditor.questions
    (PreviewEditor.handleUpdateQuestion
       (Question.with_options [] (sample_question 2)) sample_editor)
  = [sample_question 1; Question.with_options [] (sample_question 2); sample_question 3].
Proof.
  destruct (handleUpdateQuestion_frame
              (Question.with_options [] (sample_question 2)) sample_editor)
    as [_ Hframe].
  apply list_eq. intros [|[|[|i]]]; [| | |reflexivity].
  - by apply (Hframe 0 (sample_question 1)).
  - by apply (Hframe 1 (sample_question 2)).
  - by apply (Hframe 2 (sample_question 3)).
Defined.

End update.

(** ** C3: the two selections of the review list *)

Section selection.
Import PreviewEditor.

Lemma filteredQuestions_sublist (st : State) :
  filteredQuestions st `sublist_of` questions st.
Proof. apply List_filter_sublist. Qed.

(** C3.  With the low-confidence filter on, the list shown is the records
    whose confidence is strictly below 0.7, in the order of the list; with
    the flagged filter on, the records with a non-empty flag list; and the
    two buttons count these selections. *)
Theorem filteredQuestions_selects (st : State) :
  (filteredQuestions (setFilter low_confidence_only st) `sublist_of` questions st
   ∧ (∀ q, q ∈ filteredQuestions (setFilter low_confidence_only st)
           ↔ q ∈ questions st ∧ PrimFloat.ltb (Question.confidence q) 0.7%float = true)
   ∧ lowConfidenceCount st = length (filteredQuestions (setFilter low_confidence_only st)))
  ∧ (filteredQuestions (setFilter flagged st) `sublist_of` questions st
     ∧ (∀ q, q ∈ filteredQuestions (setFilter flagged st)
             ↔ q ∈ questions st ∧ Question.flags q ≠ [])
     ∧ flaggedCount st = length (filteredQuestions (setFilter flagged st))).
Proof.
  split; (split; [apply (filteredQuestions_sublist (setFilter _ st))|]).
  - split; [|done]. intros q. unfold filteredQuestions. simpl.
    by rewrite elem_of_List_filter.
  - split; [|done]. intros q. unfold filteredQuestions. simpl.
    rewrite elem_of_List_filter. destruct (Question.flags q); simpl.
    + split; intros [_ ?]; done.
    + split; intros [? _]; done.
Qed.

(** The theorem on three questions of confidence 0.69, 0.7 and 1.0: one is
    below the threshold, and the one at 0.7 is not; the one without a flag
    is not flagged. *)
Lemma filteredQuestions_selects_witness :
  PreviewEditor.lowConfidenceCount graded_editor = 1
  ∧ (doubtful_question
     ∈ PreviewEditor.filteredQuestions
         (PreviewEditor.setFilter PreviewEditor.low_confidence_only graded_editor))
  ∧ (borderline_question
     ∉ PreviewEditor.filteredQuestions
         (PreviewEditor.setFilter PreviewEditor.low_confidence_only graded_editor))
  ∧ (borderline_question
     ∉ PreviewEditor.filteredQuestions
         (PreviewEditor.setFilter PreviewEditor.flagged graded_editor)).
Proof.
  destruct (filteredQuestions_selects graded_editor)
    as [(_ & Hlow & _) (_ & Hflagged & _)].
  split; [reflexivity|]. split_and!.
  - apply Hlow. split; [by left|reflexivity].
  - intros [_ Hc]%Hlow. discriminate Hc.
  - intros [_ Hf]%Hflagged. by apply Hf.
Defined.

End selection.

(** ** The members of [QuestionFlag] *)


(** Of the eleven members, two have an entry in the table of
    [getFlagDescription]; the nine others are spelled out. *)
Theorem getFlagDescription_of_flag (f : QuestionFlag) :
  QuestionCard.getFlagDescription (QuestionFlag_string f)
  = match f with
    | needs_image | options_need_images => QuestionCard.entry_of (QuestionFlag_string f)
    | _ => QuestionCard.spelled_out
             (QuestionCard.replace_underscores (QuestionFlag_string f))
    end.
Proof. by destruct f; vm_compute. Qed.

(** ** C9: an option list keeps two options *)

Section remove_guard.

Lemma length_removed (index : nat) (os : list Option.t) :
  2 < length os →
  2 ≤ length (imap (λ i opt, Option.with_label (label_at i) opt)
               (Array_filter (λ _ i, negb (i =? index)) os)).
Proof.
  intros Hlen. rewrite length_imap, Array_filter_delete.
  pose proof (length_delete_le os index). lia.
Qed.

Lemma form_remove_length (index : nat) (st : AddQuestionForm.State) :
  2 ≤ length (AddQuestionForm.options st) →
  2 ≤ length (AddQuestionForm.options (AddQuestionForm.handleRemoveOption index st)).
Proof.
  intros Hlen. unfold AddQuestionForm.handleRemoveOption.
  destruct (Nat.leb_spec (length (AddQuestionForm.options st)) 2); [done|].
  match goal with |- context [if ?b then _ else _] => destruct b end;
    simpl; by apply length_removed.
Qed.

Lemma card_remove_length (index : nat) (st : QuestionCard.State) :
  2 ≤ length (card_options st) →
  2 ≤ length (card_options (QuestionCard.handleRemoveOption index st)).
Proof.
  unfold card_options, QuestionCard.handleRemoveOption. intros Hlen.
  destruct (Nat.leb_spec (length (Question.options (QuestionCard.editData st))) 2);
    [done|].
  simpl. by apply length_removed.
Qed.

(** C9.  On an option list of at most two options [handleRemoveOption]
    returns before any state is set, in the form and in the card; so a
    list of at least two options has at least two after any run of
    removals. *)
Theorem handleRemoveOption_keeps_two :
  (∀ index st, length (AddQuestionForm.options st) ≤ 2 →
     AddQuestionForm.handleRemoveOption index st = st)
  ∧ (∀ index st, length (card_options st) ≤ 2 →
       QuestionCard.handleRemoveOption index st = st)
  ∧ (∀ indices st, 2 ≤ length (AddQuestionForm.options st) →
       2 ≤ length (AddQuestionForm.options (remove_all_form indices st)))
  ∧ (∀ indices st, 2 ≤ length (card_options st) →
       2 ≤ length (card_options (remove_all_card indices st))).
Proof.
  repeat split.
  - intros index st Hlen. unfold AddQuestionForm.handleRemoveOption.
    by destruct (Nat.leb_spec (length (AddQuestionForm.options st)) 2); [|lia].
  - intros index st Hlen. unfold QuestionCard.handleRemoveOption.
    unfold card_options in Hlen.
    by destruct (Nat.leb_spec (length (Question.options (QuestionCard.editData st))) 2);
      [|lia].
  - intros indices. induction indices as [|index indices IH]; intros st Hlen; [done|].
    apply IH. by apply form_remove_length.
  - intros indices. induction indices as [|index indices IH]; intros st Hlen; [done|].
    apply IH. by apply card_remove_length.
Qed.

(** Five removals from the four options of the form leave two; three
    removals from the three options of a card leave two. *)
Lemma handleRemoveOption_keeps_two_witness :
  2 ≤ length (AddQuestionForm.options AddQuestionForm.initial)
  ∧ 2 ≤ length (AddQuestionForm.options
                  (remove_all_form [0; 0; 0; 0; 0] AddQuestionForm.initial))
  ∧ 2 ≤ length (card_options
                  (remove_all_card [2; 0; 1] (QuestionCard.initial (sample_question 1)))).
Proof.
  destruct handleRemoveOption_keeps_two as (_ & _ & Hform & Hcard).
  assert (Hlen : 2 ≤ length (AddQuestionForm.options AddQuestionForm.initial))
    by (simpl; lia).
  split; [exact Hlen|]. split.
  - by apply Hform.
  - apply Hcard. simpl. lia.
Defined.

End remove_guard.

(** ** C2: the labels of an option list *)

Section option_labels.

Lemma uint_units_inj (d d' : Decimal.uint) : uint_units d = uint_units d' → d = d'.
Proof.
  revert d'. induction d; intros [] Heq; simpl in Heq;
    try discriminate; try reflexivity;
    injection Heq as Heq; f_equal; by apply IHd.
Qed.

Lemma Number_toString_inj (n m : nat) : Number_toString n = Number_toString m → n = m.
Proof.
  intros Heq. by apply DecimalNat.Unsigned.to_uint_inj, uint_units_inj.
Qed.

(** Up to the eighth position the label is the letter. *)
Lemma label_at_letter (i : nat) : i < 8 → label_at i = [(65 + N.of_nat i)%N].
Proof.
  intros Hi. do 8 (destruct i as [|i]; [reflexivity|]). lia.
Qed.

(** From the ninth on it is [O] and the position, counted from one. *)
Lemma label_at_numbered (i : nat) :
  8 ≤ i → label_at i = 79%N :: Number_toString (i + 1).
Proof.
  intros Hi. unfold label_at. by rewrite lookup_ge_None_2.
Qed.

Lemma label_at_inj (i j : nat) : label_at i = label_at j → i = j.
Proof.
  destruct (Nat.lt_ge_cases i 8) as [Hi|Hi], (Nat.lt_ge_cases j 8) as [Hj|Hj].
  - rewrite !label_at_letter by done. intros [= Heq]. lia.
  - rewrite label_at_letter, label_at_numbered by done. intros [= Heq _]. lia.
  - rewrite label_at_numbered, label_at_letter by done. intros [= Heq _]. lia.
  - rewrite !label_at_numbered by done. intros [= Heq].
    apply Number_toString_inj in Heq. lia.
Qed.

Lemma labelled_by_position_seq (os : list Option.t) :
  labelled_by_position os ↔ labels_of os = label_at <$> seq 0 (length os).
Proof. apply lookup_fmap_seq. Qed.

Lemma labelled_by_position_NoDup (os : list Option.t) :
  labelled_by_position os → NoDup (labels_of os).
Proof.
  intros Hpos%labelled_by_position_seq. rewrite Hpos.
  apply (@NoDup_fmap_2 _ _ label_at label_at_inj), NoDup_seq.
Qed.

Lemma labelled_by_position_alphabet (os : list Option.t) :
  labelled_by_position os → length os ≤ 8 → alphabet_prefix os.
Proof.
  intros Hpos%labelled_by_position_seq Hlen. split.
  - replace (length alphabet) with 26 by reflexivity. lia.
  - rewrite Hpos. generalize (length os) Hlen. clear. intros n Hn.
    do 9 (destruct n as [|n]; [reflexivity|]). lia.
Qed.

Lemma labelled_well (os : list Option.t) : labelled_by_position os → well_labelled os.
Proof.
  intros Hpos. split; [done|]. split.
  - by apply labelled_by_position_NoDup.
  - by apply labelled_by_position_alphabet.
Qed.

(** Adding: the new option takes the label of its position. *)
Lemma labelled_add (os : list Option.t) :
  labelled_by_position os →
  labelled_by_position (os ++ [Option.empty (label_at (length os))]).
Proof.
  intros Hpos i o [Ho|[Hi Ho]]%lookup_app_Some; [by apply Hpos|].
  apply list_lookup_singleton_Some in Ho as [Hz <-]. simpl.
  f_equal. lia.
Qed.

(** Relabelling: every option takes the label of its position. *)
Lemma labelled_relabel (os : list Option.t) :
  labelled_by_position (imap (λ i opt, Option.with_label (label_at i) opt) os).
Proof.
  intros i o Ho. rewrite list_lookup_imap in Ho.
  destruct (os !! i); simpl in Ho; [|done]. by injection Ho as <-.
Qed.


(** What the two [handleRemoveOption] do to the option list. *)
Lemma form_remove_options (index : nat) (st : AddQuestionForm.State) :
  AddQuestionForm.options (AddQuestionForm.handleRemoveOption index st)
  = if length (AddQuestionForm.options st) <=? 2 then AddQuestionForm.options st
    else imap (λ i opt, Option.with_label (label_at i) opt)
           (delete index (AddQuestionForm.options st)).
Proof.
  unfold AddQuestionForm.handleRemoveOption.
  destruct (length (AddQuestionForm.options st) <=? 2); [done|].
  rewrite Array_filter_delete.
  by match goal with |- context [if ?b then _ else _] => destruct b end.
Qed.


Lemma labelled_remove (index : nat) (os : list Option.t) :
  labelled_by_position os →
  labelled_by_position
    (if length os <=? 2 then os
     else imap (λ i opt, Option.with_label (label_at i) opt) (delete index os)).
Proof.
  intros Hpos. destruct (length os <=? 2); [done|]. apply labelled_relabel.
Qed.







(** However add-option and remove-option are clicked on the form, its
    options are labelled by position and are two or more. *)
Theorem form_options_invariant (events : list OptionEvent) :
  well_labelled (AddQuestionForm.options (foldl form_step AddQuestionForm.initial events))
  ∧ 2 ≤ length (AddQuestionForm.options (foldl form_step AddQuestionForm.initial events)).
Proof.
  assert (Hinit : labelled_by_position (AddQuestionForm.options AddQuestionForm.initial)
                  ∧ 2 ≤ length (AddQuestionForm.options AddQuestionForm.initial)).
  { split; [by apply labelled_by_position_seq|simpl; lia]. }
  revert Hinit. generalize AddQuestionForm.initial.
  induction events as [|ev events IH]; intros st [Hpos Hlen].
  - split; [by apply labelled_well|done].
  - apply IH. destruct ev as [|index]; simpl.
    + split; [by apply labelled_add|]. rewrite length_app. lia.
    + rewrite form_remove_options. split; [by apply labelled_remove|].
      destruct (Nat.leb_spec (length (AddQuestionForm.options st)) 2); [done|].
      rewrite length_imap. pose proof (length_delete_le (AddQuestionForm.options st) index).
      lia.
Qed.

End option_labels.

(** ** C1: the ids of the question list *)

Section question_ids.
Import PreviewEditor.

Lemma ids_by_position_seq (qs : list Question.t) :
  ids_by_position qs ↔ ids qs = (λ i, Z.of_nat i + 1)%Z <$> seq 0 (length qs).
Proof. apply lookup_fmap_seq. Qed.

Lemma sorted_from (k n : nat) :
  StronglySorted Z.lt ((λ i, Z.of_nat i + 1)%Z <$> seq k n).
Proof.
  revert k. induction n as [|n IH]; intros k; simpl; constructor; [apply IH|].
  apply Forall_fmap, Forall_forall. intros j [Hj _]%elem_of_seq. simpl. lia.
Qed.

Lemma ids_by_position_increasing (qs : list Question.t) :
  ids_by_position qs → ids_increasing qs.
Proof.
  intros Hpos%ids_by_position_seq. unfold ids_increasing. rewrite Hpos. split.
  - apply sorted_from.
  - apply Forall_fmap, Forall_forall. intros j _. simpl. lia.
Qed.

(** In a strictly increasing list that starts at [b] or above, position [i]
    holds [b + i] or more. *)
Lemma sorted_lookup_ge (l : list Z) (b : Z) (i : nat) (x : Z) :
  StronglySorted Z.lt l → Forall (Z.le b) l → l !! i = Some x →
  (b + Z.of_nat i ≤ x)%Z.
Proof.
  intros Hsorted. revert b i.
  induction Hsorted as [|y l Hsorted IH Hy]; intros b i Hb Hx; [done|].
  apply Forall_cons in Hb as [Hby Hb].
  destruct i as [|i]; simpl in Hx.
  - injection Hx as ->. lia.
  - assert (b + 1 + Z.of_nat i ≤ x)%Z; [|lia].
    apply IH; [|done]. eapply Forall_impl; [apply Hy|]. simpl. lia.
Qed.

Lemma ids_increasing_lookup (qs : list Question.t) (i : nat) (q : Question.t) :
  ids_increasing qs → qs !! i = Some q → (Z.of_nat i + 1 ≤ Question.id q)%Z.
Proof.
  intros [Hsorted Hone] Hq.
  assert (1 + Z.of_nat i ≤ Question.id q)%Z; [|lia].
  apply (sorted_lookup_ge (ids qs)); [done..|].
  unfold ids. by rewrite list_lookup_fmap, Hq.
Qed.

(** *** Update *)

Lemma ids_update (updated : Question.t) (st : State) :
  ids (questions (handleUpdateQuestion updated st)) = ids (questions st).
Proof.
  unfold ids. simpl. rewrite <- list_fmap_compose.
  apply list_fmap_ext. intros i q _. simpl.
  by destruct (Z.eqb_spec (Question.id q) (Question.id updated)).
Qed.

(** *** Add *)

Lemma Math_max_upper (x : Z) (xs : list Z) :
  Forall (λ y, y ≤ Math_max x xs)%Z (x :: xs).
Proof.
  unfold Math_max. induction xs as [|y ys IH]; simpl.
  - repeat constructor. lia.
  - apply Forall_cons in IH as [Hx Hys]. repeat constructor; [lia..|].
    eapply Forall_impl; [apply Hys|]. simpl. lia.
Qed.

Lemma Math_max_elem (x : Z) (xs : list Z) : Math_max x xs ∈ x :: xs.
Proof.
  unfold Math_max. induction xs as [|y ys IH]; simpl; [by left|].
  destruct (Z.max_spec y (foldr Z.max x ys)) as [[_ ->]|[_ ->]].
  - apply elem_of_cons in IH as [->|IH]; [by left|by do 2 right].
  - right. by left.
Qed.

(** Up to 2^53 an integer is a number. *)
Lemma round_binary64_exact (z : Z) : (Z.abs z ≤ 2 ^ 53)%Z → round_binary64 z = z.
Proof.
  intros Hz. unfold round_binary64.
  by destruct (Z.leb_spec (Z.abs z) (2 ^ 53)); [|lia].
Qed.

(** Beyond, it need not be: 2^53 + 1 is rounded to 2^53. *)
Lemma round_binary64_inexact : round_binary64 (2 ^ 53 + 1) = (2 ^ 53)%Z.
Proof. reflexivity. Qed.

(** On the ids 1 and 2^53 the form is given 2^53, the id of the second
    question: beyond 2^53 the next id need not be new. *)
Lemma nextId_rounded :
  nextId (mk false None [sample_question 1; sample_question (2 ^ 53)] None all 2 2 false)
  = (2 ^ 53)%Z.
Proof. reflexivity. Qed.

(** Below 2^53 the sum of [nextId] is exact. *)
Lemma nextId_exact (st : State) :
  Forall (Z.le 1) (ids (questions st)) → ids_safe (questions st) →
  nextId st = match ids (questions st) with
              | [] => 1
              | i :: l => Math_max i l + 1
              end%Z.
Proof.
  unfold ids_safe, nextId, ids.
  destruct (Question.id <$> questions st) as [|x xs]; [done|].
  intros Hone Hsafe. apply round_binary64_exact.
  pose proof (Math_max_elem x xs) as Hmax.
  rewrite Forall_forall in Hone, Hsafe.
  specialize (Hone _ Hmax). specialize (Hsafe _ Hmax). simpl in Hsafe. lia.
Qed.

Lemma nextId_above (st : State) :
  Forall (Z.le 1) (ids (questions st)) → ids_safe (questions st) →
  Forall (λ y, y < nextId st)%Z (ids (questions st)).
Proof.
  intros Hone Hsafe. rewrite nextId_exact by done.
  destruct (ids (questions st)) as [|x xs]; [constructor|].
  eapply Forall_impl; [apply Math_max_upper|]. simpl. lia.
Qed.

Lemma nextId_positive (st : State) :
  Forall (Z.le 1) (ids (questions st)) → ids_safe (questions st) →
  (1 ≤ nextId st)%Z.
Proof.
  intros Hone Hsafe. rewrite nextId_exact by done.
  destruct (ids (questions st)) as [|x xs]; [done|].
  apply Forall_cons in Hone as [Hx _].
  pose proof (Math_max_upper x xs) as [Hmax _]%Forall_cons. lia.
Qed.

(** On a list numbered by position the next id is the next position. *)
Lemma nextId_by_position (st : State) :
  ids_by_position (questions st) → ids_safe (questions st) →
  nextId st = (Z.of_nat (length (questions st)) + 1)%Z.
Proof.
  intros Hpos Hsafe. pose proof Hpos as Hseq%ids_by_position_seq.
  rewrite nextId_exact; [|by apply ids_by_position_increasing|done].
  destruct (ids (questions st)) as [|x xs] eqn:Hids.
  - apply (f_equal length) in Hids. unfold ids in Hids.
    rewrite length_fmap in Hids. by rewrite Hids.
  - f_equal. apply Z.le_antisymm.
    + pose proof (Math_max_elem x xs) as Hin. rewrite Hseq in Hin.
      apply list_elem_of_fmap in Hin as (j & -> & [_ Hj]%elem_of_seq). lia.
    + assert (Hlast : Z.of_nat (length (questions st)) ∈ x :: xs).
      { rewrite Hseq. apply (f_equal length) in Hids. unfold ids in Hids.
        rewrite length_fmap in Hids. simpl in Hids.
        apply list_elem_of_fmap. exists (length (questions st) - 1). split; [lia|].
        apply elem_of_seq. lia. }
      pose proof (Math_max_upper x xs) as Hub.
      rewrite Forall_forall in Hub. by apply Hub.
Qed.

Lemma ids_add (newQuestion : Question.t) (st : State) :
  ids (questions (handleAddQuestion newQuestion st))
  = ids (questions st) ++ [Question.id newQuestion].
Proof. unfold ids. simpl. by rewrite fmap_app. Qed.

Lemma add_by_position (newQuestion : Question.t) (st : State) :
  Question.id newQuestion = nextId st →
  ids_by_position (questions st) → ids_safe (questions st) →
  ids_by_position (questions (handleAddQuestion newQuestion st)).
Proof.
  intros Hid Hpos Hsafe i q. simpl.
  intros [Hq|[Hi Hq]]%lookup_app_Some; [by apply Hpos|].
  apply list_lookup_singleton_Some in Hq as [Hz <-].
  rewrite Hid, nextId_by_position by done. lia.
Qed.

Lemma add_increasing (newQuestion : Question.t) (st : State) :
  Question.id newQuestion = nextId st →
  ids_increasing (questions st) → ids_safe (questions st) →
  ids_increasing (questions (handleAddQuestion newQuestion st)).
Proof.
  intros Hid [Hsorted Hone] Hsafe. unfold ids_increasing. rewrite ids_add, Hid. split.
  - apply StronglySorted_app. split_and!; [|done|repeat constructor].
    intros x1 x2 Hx1 ->%list_elem_of_singleton.
    pose proof (nextId_above st Hone Hsafe) as Habove.
    rewrite Forall_forall in Habove. by apply Habove.
  - apply Forall_app. split; [done|]. repeat constructor. by apply nextId_positive.
Qed.

(** *** Delete *)

Lemma ids_filter_Forall (P : Z → Prop) (p : Question.t → bool) (qs : list Question.t) :
  Forall P (ids qs) → Forall P (ids (List.filter p qs)).
Proof.
  unfold ids. induction qs as [|q qs IH]; [done|].
  intros [Hq Hqs]%Forall_cons. simpl.
  destruct (p q); [constructor|]; auto.
Qed.

Lemma ids_filter_sorted (p : Question.t → bool) (qs : list Question.t) :
  StronglySorted Z.lt (ids qs) → StronglySorted Z.lt (ids (List.filter p qs)).
Proof.
  induction qs as [|q qs IH]; [done|].
  intros [Hq Hqs]%StronglySorted_cons. simpl.
  destruct (p q); [|by apply IH].
  apply StronglySorted_cons. split; [|by apply IH].
  by apply (ids_filter_Forall (Z.lt (Question.id q))).
Qed.

Lemma delete_questions (id : Z) (confirmed : bool) (st : State) :
  questions (handleDeleteQuestion id confirmed st)
  = if confirmed then List.filter (λ q, negb (Question.id q =? id)%Z) (questions st)
    else questions st.
Proof.
  unfold handleDeleteQuestion. destruct confirmed; [|done].
  by destruct (bool_decide (expandedId st = Some id)).
Qed.

Lemma delete_increasing (id : Z) (confirmed : bool) (st : State) :
  ids_increasing (questions st) →
  ids_increasing (questions (handleDeleteQuestion id confirmed st)).
Proof.
  rewrite delete_questions. destruct confirmed; [|done].
  intros [Hsorted Hone]. split.
  - by apply ids_filter_sorted.
  - by apply ids_filter_Forall.
Qed.

Lemma delete_safe (id : Z) (confirmed : bool) (st : State) :
  ids_safe (questions st) → ids_safe (questions (handleDeleteQuestion id confirmed st)).
Proof.
  rewrite delete_questions. destruct confirmed; [|done].
  apply ids_filter_Forall.
Qed.

(** The records a delete leaves: all but those of the given id, once the
    dialog is confirmed. *)
Lemma delete_elem_of (id : Z) (confirmed : bool) (st : State) (q : Question.t) :
  q ∈ questions (handleDeleteQuestion id confirmed st)
  ↔ q ∈ questions st ∧ (confirmed = true → Question.id q ≠ id).
Proof.
  rewrite delete_questions. destruct confirmed.
  - rewrite elem_of_List_filter, negb_true_iff, Z.eqb_neq. intuition.
  - intuition. discriminate.
Qed.

Lemma List_filter_all {A} (p : A → bool) (l : list A) :
  Forall (λ x, p x = true) l → List.filter p l = l.
Proof.
  induction 1 as [|x l Hx _ IH]; [done|]. simpl. by rewrite Hx, IH.
Qed.

(** Deleting the last question of a list numbered by position leaves the
    questions before it. *)
Lemma delete_last (qs : list Question.t) (q : Question.t) (st : State) :
  questions st = qs ++ [q] → ids_by_position (questions st) →
  questions (handleDeleteQuestion (Question.id q) true st) = qs.
Proof.
  intros Hqs Hpos. rewrite delete_questions, Hqs, List.filter_app. simpl.
  rewrite Z.eqb_refl. simpl. rewrite app_nil_r.
  apply List_filter_all, Forall_forall. intros q' Hq'.
  apply list_elem_of_lookup in Hq' as [i Hi].
  pose proof (lookup_lt_Some _ _ _ Hi) as Hlt.
  rewrite Hqs in Hpos.
  assert (Hid' : Question.id q' = (Z.of_nat i + 1)%Z).
  { apply Hpos. by apply lookup_app_l_Some. }
  assert (Hid : Question.id q = (Z.of_nat (length qs) + 1)%Z).
  { apply Hpos. rewrite lookup_app_r by lia. by rewrite Nat.sub_diag. }
  apply negb_true_iff, Z.eqb_neq. lia.
Qed.

(** C1, as the editor has it.  Update keeps [records[i].id == i + 1], and
    so does add, with the id the form is given, [nextId], as long as the
    ids are below 2^53, where the sum of [nextId] is exact; delete takes
    out the records of the given id, no other, and renumbers nothing.  What
    all three keep is that the ids are strictly increasing from 1 or above,
    so that [records[i].id >= i + 1], whatever the ordinals declared in the
    source were. *)
Theorem ids_after_editor_operations
    (st : State) (updated newQuestion : Question.t) (id : Z) (confirmed : bool) :
  Question.id newQuestion = nextId st →
  (ids_by_position (questions st) →
     ids_by_position (questions (handleUpdateQuestion updated st))
     ∧ (ids_safe (questions st) →
        ids_by_position (questions (handleAddQuestion newQuestion st)))
     ∧ ids_increasing (questions st))
  ∧ (ids_increasing (questions st) →
       ids_increasing (questions (handleUpdateQuestion updated st))
       ∧ (ids_safe (questions st) →
          ids_increasing (questions (handleAddQuestion newQuestion st)))
       ∧ ids_increasing (questions (handleDeleteQuestion id confirmed st))
       ∧ questions (handleDeleteQuestion id confirmed st) `sublist_of` questions st
       ∧ (∀ q : Question.t,
            q ∈ questions (handleDeleteQuestion id confirmed st)
            ↔ q ∈ questions st ∧ (confirmed = true → Question.id q ≠ id))
       ∧ ∀ (i : nat) (q : Question.t),
           questions (handleDeleteQuestion id confirmed st) !! i = Some q →
           (Z.of_nat i + 1 ≤ Question.id q)%Z).
Proof.
  intros Hid. split.
  - intros Hpos. split_and!.
    + apply ids_by_position_seq. rewrite ids_update.
      replace (length (questions (handleUpdateQuestion updated st)))
        with (length (questions st)) by (simpl; by rewrite length_fmap).
      by apply ids_by_position_seq.
    + intros Hsafe. by apply add_by_position.
    + by apply ids_by_position_increasing.
  - intros Hinc. split_and!.
    + unfold ids_increasing. by rewrite ids_update.
    + intros Hsafe. by apply add_increasing.
    + by apply delete_increasing.
    + rewrite delete_questions. destruct confirmed; [|done].
      apply List_filter_sublist.
    + intros q. apply delete_elem_of.
    + intros i q. apply ids_increasing_lookup. by apply delete_increasing.
Qed.

(** The theorem on the editor showing questions 1, 2 and 3: question 4 is
    added with the next id, and question 2 is deleted. *)
Lemma ids_after_editor_operations_witness :
  Question.id (sample_question 4) = PreviewEditor.nextId sample_editor
  ∧ ids_safe (PreviewEditor.questions sample_editor)
  ∧ ids_by_position (PreviewEditor.questions sample_editor)
  ∧ ids_by_position
      (PreviewEditor.questions
         (PreviewEditor.handleAddQuestion (sample_question 4) sample_editor))
  ∧ ids_increasing
      (PreviewEditor.questions (PreviewEditor.handleDeleteQuestion 2 true sample_editor))
  ∧ (sample_question 2
      ∉ PreviewEditor.questions (PreviewEditor.handleDeleteQuestion 2 true sample_editor)).
Proof.
  assert (Hpos : ids_by_position (PreviewEditor.questions sample_editor))
    by (by apply ids_by_position_seq).
  assert (Hsafe : ids_safe (PreviewEditor.questions sample_editor))
    by (by repeat constructor).
  destruct (ids_after_editor_operations sample_editor (sample_question 2)
              (sample_question 4) 2 true eq_refl) as [Hkeep Hinc].
  split; [reflexivity|]. split; [exact Hsafe|]. split; [exact Hpos|]. split; [|split].
  - by apply (Hkeep Hpos).
  - apply Hinc, (Hkeep Hpos).
  - destruct (Hinc (proj2 (proj2 (Hkeep Hpos)))) as (_ & _ & _ & _ & Hin & _).
    intros [_ Hne]%Hin. by apply Hne.
Defined.

(** Deleting question 2 of the questions 1, 2 and 3 leaves question 3 at
    the second position: [records[1].id] is 3, not 2. *)
Lemma delete_leaves_a_gap :
  ids_by_position (PreviewEditor.questions sample_editor)
  ∧ ¬ ids_by_position
        (PreviewEditor.questions (PreviewEditor.handleDeleteQuestion 2 true sample_editor)).
Proof.
  split; [by apply ids_by_position_seq|].
  intros Hpos. specialize (Hpos 1 (sample_question 3) eq_refl). discriminate Hpos.
Qed.

(** Strictly increasing ids from 1 or above are an invariant of the
    editor, as long as the ids stay below 2^53: whatever is saved,
    submitted and deleted, in any order, they stay so, and
    [records[i].id >= i + 1]. *)
Theorem editor_ids_invariant (st : State) (events : list EditorEvent) :
  ids_increasing (questions st) →
  Forall (λ x, x + Z.of_nat (length events) < 2 ^ 53)%Z (ids (questions st)) →
  (Z.of_nat (length events) < 2 ^ 53)%Z →
  ids_increasing (questions (foldl editor_step st events))
  ∧ ∀ (i : nat) (q : Question.t),
      questions (foldl editor_step st events) !! i = Some q →
      (Z.of_nat i + 1 ≤ Question.id q)%Z.
Proof.
  intros Hinc Hroom Hlen.
  assert (Hrun : ids_increasing (questions (foldl editor_step st events))).
  { revert st Hinc Hroom.
    induction events as [|ev events IH]; intros st Hinc Hroom; [done|].
    rewrite length_cons, Nat2Z.inj_succ in Hroom, Hlen.
    assert (Hsafe : ids_safe (questions st)).
    { eapply Forall_impl; [apply Hroom|]. simpl. lia. }
    apply IH; [lia|..];
      destruct ev as [updated|newQuestion|id confirmed]; unfold editor_step.
    - unfold ids_increasing. by rewrite ids_update.
    - by apply add_increasing.
    - by apply delete_increasing.
    - rewrite ids_update. eapply Forall_impl; [apply Hroom|]. simpl. lia.
    - rewrite ids_add. apply Forall_app. split.
      + eapply Forall_impl; [apply Hroom|]. simpl. lia.
      + repeat constructor. simpl.
        rewrite nextId_exact by (done || apply Hinc).
        destruct (ids (questions st)) as [|x xs]; [lia|].
        pose proof (Math_max_elem x xs) as Hmax.
        rewrite Forall_forall in Hroom. specialize (Hroom _ Hmax). simpl in Hroom. lia.
    - rewrite delete_questions. destruct confirmed.
      + apply ids_filter_Forall. eapply Forall_impl; [apply Hroom|]. simpl. lia.
      + eapply Forall_impl; [apply Hroom|]. simpl. lia. }
  split; [done|]. intros i q. by apply ids_increasing_lookup.
Qed.

(** The invariant on the editor showing questions 1, 2 and 3: question 2 is
    deleted, a question is submitted, and question 1 is saved. *)
Lemma editor_ids_invariant_witness :
  ids_increasing (questions sample_editor)
  ∧ ids (questions (foldl editor_step sample_editor
                      [delete_clicked 2 true; submitted (sample_question 0);
                       saved (sample_question 1)]))
    = [1; 3; 4]%Z
  ∧ ids_increasing
      (questions (foldl editor_step sample_editor
                    [delete_clicked 2 true; submitted (sample_question 0);
                     saved (sample_question 1)])).
Proof.
  assert (Hinc : ids_increasing (questions sample_editor))
    by (by apply ids_by_position_increasing, ids_by_position_seq).
  split; [exact Hinc|]. split; [reflexivity|].
  apply (editor_ids_invariant sample_editor _ Hinc); [by repeat constructor|done].
Defined.

(** On a list whose ids are integers from 1 to below 2^53, the id the form
    is given is above every id of the list, so the id of no question that
    is in the list.  The id of a question that was deleted can come back:
    after the last question of a list numbered by position is deleted, the
    form is given its id again. *)
Theorem nextId_is_fresh (st : State) :
  ids_safe (questions st) →
  (Forall (Z.le 1) (ids (questions st)) →
   Forall (λ q, (Question.id q < nextId st)%Z) (questions st))
  ∧ (ids_by_position (questions st) →
     ∀ (qs : list Question.t) (q : Question.t), questions st = qs ++ [q] →
       nextId (handleDeleteQuestion (Question.id q) true st) = Question.id q).
Proof.
  intros Hsafe. split.
  - intros Hone. pose proof (nextId_above st Hone Hsafe) as Habove.
    unfold ids in Habove. by apply Forall_fmap in Habove.
  - intros Hpos qs q Hqs.
    assert (Hdel : questions (handleDeleteQuestion (Question.id q) true st) = qs)
      by (by apply delete_last).
    assert (Hpos' : ids_by_position (questions (handleDeleteQuestion (Question.id q) true st))).
    { rewrite Hdel. intros i q' Hi. apply Hpos. rewrite Hqs. by apply lookup_app_l_Some. }
    rewrite nextId_by_position; [|done|by apply delete_safe].
    rewrite Hdel. symmetry. rewrite (Hpos (length qs) q); [done|].
    rewrite Hqs, lookup_app_r by lia. by rewrite Nat.sub_diag.
Qed.

(** On the editor showing questions 1, 2 and 3: the form is given the id 4;
    once question 3 is deleted, it is given the id 3. *)
Lemma nextId_is_fresh_witness :
  ids_safe (questions sample_editor)
  ∧ nextId sample_editor = 4%Z
  ∧ Forall (λ q, (Question.id q < nextId sample_editor)%Z) (questions sample_editor)
  ∧ nextId (handleDeleteQuestion 3 true sample_editor) = 3%Z.
Proof.
  assert (Hsafe : ids_safe (questions sample_editor)) by (by repeat constructor).
  assert (Hpos : ids_by_position (questions sample_editor))
    by (by apply ids_by_position_seq).
  destruct (nextId_is_fresh sample_editor Hsafe) as [Habove Hagain].
  split; [exact Hsafe|]. split; [reflexivity|]. split.
  - apply Habove. by repeat constructor.
  - apply (Hagain Hpos [sample_question 1; sample_question 2] (sample_question 3) eq_refl).
Defined.

(** A confirmed delete takes out the records of the given id, all of them
    and no other. *)
Theorem handleDeleteQuestion_removes (id : Z) (st : State) (q : Question.t) :
  q ∈ questions (handleDeleteQuestion id true st)
  ↔ q ∈ questions st ∧ Question.id q ≠ id.
Proof.
  rewrite delete_questions, elem_of_List_filter, negb_true_iff, Z.eqb_neq. done.
Qed.

End question_ids.

(** ** C10: what the add-question form submits *)

Section submit.
Import AddQuestionForm.

Lemma image_reference_truthy (opt : Option.t) (d : ImageData.t) :
  truthy (image_reference opt d) = true.
Proof.
  unfold image_reference. do 2 apply truthy_app_r. reflexivity.
Qed.

(** The upload loop keeps the number of options, and an option that has a
    text has one afterwards. *)
Lemma uploadOptionImages_has_text (job : list N) (imgs : gmap (list N) UploadedImage)
    (opts : list Option.t) (server : list (option ImageData.t)) :
  Forall2 (λ o o', Option.has_text o = true → Option.has_text o' = true)
    opts (uploadOptionImages job imgs opts server).1.
Proof.
  revert server. induction opts as [|opt opts IH]; intros server; [constructor|].
  simpl. unfold net_bind.
  destruct (optionImage_file imgs (Option.label opt)) as [optFile|].
  - unfold uploadImage, net_ret.
    destruct server as [|[d|] server];
      match goal with
      | |- context [uploadOptionImages job imgs opts ?s] =>
          specialize (IH s); destruct (uploadOptionImages job imgs opts s)
      end; simpl in *; constructor; try done.
    intros _. unfold Option.has_text. simpl.
    by rewrite image_reference_truthy.
  - unfold net_ret.
    specialize (IH server). destruct (uploadOptionImages job imgs opts server).
    simpl in *. by constructor.
Qed.

Lemma has_text_count (os os' : list Option.t) :
  Forall2 (λ o o', Option.has_text o = true → Option.has_text o' = true) os os' →
  length (List.filter Option.has_text os) ≤ length (List.filter Option.has_text os').
Proof.
  induction 1 as [|o o' os os' Ho _ IH]; [done|]. simpl.
  destruct (Option.has_text o); [rewrite Ho by done|destruct (Option.has_text o')];
    simpl; lia.
Qed.

Lemma has_text_spec (o : Option.t) :
  Option.has_text o = true ↔ Option.english_text o ≠ [] ∨ Option.hindi_text o ≠ [].
Proof.
  unfold Option.has_text.
  destruct (Option.english_text o), (Option.hindi_text o); simpl;
    intuition congruence.
Qed.

(** What a submit that gets to [onAdd] has passed and built. *)
Lemma handleSubmit_Some (props : Props) (st st' : State) (q : Question.t)
    (server server' : list (option ImageData.t)) :
  handleSubmit props st server = (st', Some q, server') →
  (truthy (trim (english_text (formData st))) = true
   ∨ truthy (trim (hindi_text (formData st))) = true)
  ∧ (question_type (formData st) = multiple_choice →
     2 ≤ length (List.filter Option.has_text (options st)))
  ∧ ∃ imgs opts,
      Forall2 (λ o o', Option.has_text o = true → Option.has_text o' = true)
        (options st) opts
      ∧ q = Question.mk (nextId props) (english_text (formData st))
              (hindi_text (formData st)) (question_type (formData st))
              (List.filter Option.has_text opts) [] imgs
              (or_undefined (answer (formData st)))
              (or_undefined (solution_english (formData st)))
              (or_undefined (solution_hindi (formData st)))
              (or_undefined (grading (formData st)))
              1%float [] None None None.
Proof.
  unfold handleSubmit.
  destruct (negb (truthy (trim (english_text (formData st))))
            && negb (truthy (trim (hindi_text (formData st))))) eqn:Htexts; [done|].
  destruct (bool_decide (question_type (formData st) = multiple_choice)
            && (length (List.filter Option.has_text (options st)) <? 2)) eqn:Hopts; [done|].
  unfold net_bind, net_ret.
  destruct (uploadQuestionImages (jobId props) (questionImages st) [] server)
    as [imgs server1].
  pose proof (uploadOptionImages_has_text (jobId props) (optionImages st)
                (options st) server1) as Hup.
  destruct (uploadOptionImages (jobId props) (optionImages st) (options st) server1)
    as [opts server2].
  intros [= _ <- _]. split_and!.
  - apply andb_false_iff in Htexts as [Ht|Ht]; apply negb_false_iff in Ht; auto.
  - intros Htype. apply andb_false_iff in Hopts as [Hty|Hlen].
    + by apply bool_decide_eq_false in Hty.
    + apply Nat.ltb_ge in Hlen. lia.
  - by exists imgs, opts.
Qed.

(** A form that passes the two checks gets to [onAdd], whatever the server
    answers. *)
Lemma handleSubmit_accepts (props : Props) (st : State)
    (server : list (option ImageData.t)) :
  truthy (trim (english_text (formData st))) = true
  ∨ truthy (trim (hindi_text (formData st))) = true →
  (question_type (formData st) = multiple_choice →
   2 ≤ length (List.filter Option.has_text (options st))) →
  ∃ st' q server', handleSubmit props st server = (st', Some q, server').
Proof.
  intros Htext Htwo. unfold handleSubmit.
  assert (negb (truthy (trim (english_text (formData st))))
          && negb (truthy (trim (hindi_text (formData st)))) = false) as ->.
  { apply andb_false_iff. destruct Htext as [->| ->]; auto. }
  assert (bool_decide (question_type (formData st) = multiple_choice)
          && (length (List.filter Option.has_text (options st)) <? 2) = false) as ->.
  { apply andb_false_iff.
    destruct (decide (question_type (formData st) = multiple_choice)) as [Hty|Hty].
    - right. apply Nat.ltb_ge. auto.
    - left. by apply bool_decide_eq_false. }
  unfold net_bind, net_ret.
  destruct (uploadQuestionImages _ _ _ _) as [imgs server1].
  destruct (uploadOptionImages _ _ _ _) as [opts server2].
  by eexists _, _, _.
Qed.

(** C10.  A form with a text and, for a multiple-choice question, two
    options with a text is submitted; and the question [handleSubmit] hands
    to [onAdd] has confidence 1.0, no flag and no table; each of its options
    has an English or a Hindi text; and a multiple-choice question has at
    least two options. *)
Theorem handleSubmit_question (props : Props) (st : State)
    (server : list (option ImageData.t)) :
  (truthy (trim (english_text (formData st))) = true
   ∨ truthy (trim (hindi_text (formData st))) = true →
   (question_type (formData st) = multiple_choice →
    2 ≤ length (List.filter Option.has_text (options st))) →
   ∃ st' q server', handleSubmit props st server = (st', Some q, server'))
  ∧ ∀ st' q server',
      handleSubmit props st server = (st', Some q, server') →
      Question.confidence q = 1%float
      ∧ Question.flags q = []
      ∧ Question.tables q = []
      ∧ Forall (λ o, Option.english_text o ≠ [] ∨ Option.hindi_text o ≠ [])
          (Question.options q)
      ∧ (Question.question_type q = multiple_choice → 2 ≤ length (Question.options q)).
Proof.
  split; [apply handleSubmit_accepts|].
  intros st' q server' (_ & Htwo & imgs & opts & Hopts & ->)%handleSubmit_Some. simpl.
  split_and!; try done.
  - apply Forall_forall. intros o [_ Ho]%elem_of_List_filter. by apply has_text_spec.
  - intros Htype. pose proof (has_text_count _ _ Hopts). specialize (Htwo Htype). lia.
Qed.

(** The theorem on a form with the options B and C filled in and an image
    for option A, which the server stores. *)
Lemma handleSubmit_question_witness :
  ∃ st' q,
    AddQuestionForm.handleSubmit sample_props filled_form sample_server = (st', Some q, [])
    ∧ Question.confidence q = 1%float
    ∧ Option.label <$> Question.options q = [lit "A"; lit "B"; lit "C"]
    ∧ 2 ≤ length (Question.options q).
Proof.
  eexists _, _. split; [reflexivity|]. split; [reflexivity|]. split; [reflexivity|].
  refine (proj2 (proj2 (proj2 (proj2
    (proj2 (handleSubmit_question sample_props filled_form sample_server) _ _ [] _)))) _);
    reflexivity.
Defined.

(** [handleSubmit] rejects a form whose two texts are both empty once
    trimmed: it sets the error and calls nothing.  So no question it hands to
    [onAdd] has an empty English text and an empty Hindi text. *)
Theorem handleSubmit_needs_a_text (props : Props) (st : State)
    (server : list (option ImageData.t)) :
  (trim (english_text (formData st)) = [] →
   trim (hindi_text (formData st)) = [] →
   handleSubmit props st server
   = (setError (Some (lit "Please enter question text (English or Hindi)")) st,
      None, server))
  ∧ (∀ st' q server',
       handleSubmit props st server = (st', Some q, server') →
       ¬ (trim (Question.english_text q) = [] ∧ trim (Question.hindi_text q) = [])
       ∧ ¬ (Question.english_text q = [] ∧ Question.hindi_text q = [])).
Proof.
  split.
  - intros Hen Hhi. unfold handleSubmit. by rewrite Hen, Hhi.
  - intros st' q server' (Htext & _ & imgs & opts & _ & ->)%handleSubmit_Some. simpl.
    assert (Hno : ¬ (trim (english_text (formData st)) = []
                     ∧ trim (hindi_text (formData st)) = [])).
    { intros [Hen Hhi]. rewrite Hen, Hhi in Htext. by destruct Htext. }
    split; [done|]. intros [Hen Hhi]. apply Hno. by rewrite Hen, Hhi.
Qed.

(** The form as it opens, with no text yet, is rejected. *)
Lemma handleSubmit_needs_a_text_witness :
  AddQuestionForm.handleSubmit sample_props AddQuestionForm.initial sample_server
  = (AddQuestionForm.setError
       (Some (lit "Please enter question text (English or Hindi)"))
       AddQuestionForm.initial,
     None, sample_server).
Proof.
  apply (proj1 (handleSubmit_needs_a_text sample_props AddQuestionForm.initial sample_server));
    reflexivity.
Defined.

End submit.

(** ** C5: what a card saves *)

Section save.
Import QuestionCard.

(** The question [handleSave] hands to [onUpdate] is [editData] with the
    images and the options of the two upload loops. *)
Lemma saved_question_unfold (job : list N) (card : State)
    (server : list (option ImageData.t)) :
  ∃ imgs opts,
    saved_question job card server
    = Question.with_options opts (Question.with_images imgs (editData card)).
Proof.
  unfold saved_question, handleSave, net_bind, net_ret.
  destruct (uploadQuestionImages _ _ _ _) as [imgs server1].
  destruct (uploadOptionImages _ _ _ _) as [opts server2].
  by exists imgs, opts.
Qed.

Lemma update_lookup (updated q : Question.t) (st : PreviewEditor.State) (i : nat) :
  PreviewEditor.questions st !! i = Some q →
  Question.id q = Question.id updated →
  PreviewEditor.questions (PreviewEditor.handleUpdateQuestion updated st) !! i
  = Some updated.
Proof.
  intros Hq Hid. simpl. rewrite list_lookup_fmap, Hq. simpl.
  by rewrite Hid, Z.eqb_refl.
Qed.

(** C5, as the card has it.  [handleSave] checks no text: the question it
    hands to [onUpdate] has the id and the two texts of [editData], empty or
    not, and [handleUpdateQuestion] puts it where the question of that id
    was.  (The submit of the add-question form does check the texts.) *)
Theorem handleSave_checks_no_text (job : list N) (card : State)
    (server : list (option ImageData.t)) (st : PreviewEditor.State) :
  Question.id (saved_question job card server) = Question.id (editData card)
  ∧ Question.english_text (saved_question job card server)
    = Question.english_text (editData card)
  ∧ Question.hindi_text (saved_question job card server)
    = Question.hindi_text (editData card)
  ∧ ∀ (i : nat) (q : Question.t),
      PreviewEditor.questions st !! i = Some q →
      Question.id q = Question.id (editData card) →
      PreviewEditor.questions
        (PreviewEditor.handleUpdateQuestion (saved_question job card server) st) !! i
      = Some (saved_question job card server).
Proof.
  destruct (saved_question_unfold job card server) as (imgs & opts & ->).
  split_and!; try done.
  intros i q Hq Hid. by apply (update_lookup _ q).
Qed.

(** The card of question 2 with both textareas cleared, saved into the
    editor showing questions 1, 2 and 3: the second record of the list has
    an empty English text and an empty Hindi text. *)
Lemma handleSave_checks_no_text_witness :
  ∃ q : Question.t,
    PreviewEditor.questions
      (PreviewEditor.handleUpdateQuestion (saved_question (lit "job") cleared_card [])
         sample_editor) !! 1 = Some q
    ∧ Question.id q = 2%Z
    ∧ Question.english_text q = []
    ∧ Question.hindi_text q = [].
Proof.
  destruct (handleSave_checks_no_text (lit "job") cleared_card [] sample_editor)
    as (Hid & Hen & Hhi & Hput).
  exists (saved_question (lit "job") cleared_card []). split_and!.
  - by apply (Hput 1 (sample_question 2)).
  - by rewrite Hid.
  - by rewrite Hen.
  - by rewrite Hhi.
Defined.

End save.

(** ** C4: the flags of the records of the review list *)

Section flags.
Import PreviewEditor.







End flags.

(** ** C6 and C7: the aligner and the confidence engine *)

Section pipeline.
Import Pipeline.

Lemma lookup_align (en hi : list MonolingualQuestionRecord) (i : nat) :
  i < length en `max` length hi →
  align en hi !! i
  = Some (pair_at (negb (length en =? length hi)) i (en !! i) (hi !! i)).
Proof.
  intros Hi. unfold align. by rewrite list_lookup_fmap, lookup_seq_lt.
Qed.

(** No record of the Aligner has both sides absent. *)
Lemma align_has_a_side (en hi : list MonolingualQuestionRecord) :
  Forall (λ r, is_Some (anchor r)) (align en hi).
Proof.
  unfold align. apply Forall_fmap, Forall_forall. intros i [_ Hi]%elem_of_seq.
  simpl. unfold anchor. simpl.
  destruct (en !! i) as [e|] eqn:He; [done|].
  apply lookup_ge_None in He. apply lookup_lt_is_Some. lia.
Qed.

Lemma length_align (en hi : list MonolingualQuestionRecord) :
  length (align en hi) = length en `max` length hi.
Proof. unfold align. by rewrite length_fmap, length_seq. Qed.

(** The engine takes no diagnostic flag away. *)
Lemma score_keeps_flag (f : QuestionFlag) (r : BilingualQuestionRecord) :
  f ≠ low_confidence → f ∈ flags r → f ∈ flags (score r).
Proof.
  intros Hf Hin.
  assert (Hd : f ∈ List.filter (λ f, negb (bool_decide (f = low_confidence))) (flags r)).
  { apply elem_of_List_filter. split; [done|].
    by rewrite bool_decide_eq_false_2. }
  unfold score. simpl. destruct (Qlt_le_dec _ _); [|done].
  apply elem_of_app. by left.
Qed.

Lemma count_mismatch_flag (i : nat) (en hi : option MonolingualQuestionRecord) :
  count_mismatch ∈ flags (pair_at true i en hi).
Proof. simpl. unfold aligner_flags. by left. Qed.

Lemma missing_hindi_flag (mismatch : bool) (i : nat) (en : option MonolingualQuestionRecord) :
  missing_hindi ∈ flags (pair_at mismatch i en None).
Proof.
  simpl. unfold aligner_flags. simpl.
  apply elem_of_app. right. apply elem_of_app. right. by left.
Qed.

(** C6.  With [n] English and [m < n] Hindi questions the job has [n]
    records.  The first [m] pair the two questions of their position; each
    later one carries its English question alone and [missing_hindi]; and
    [count_mismatch] is on the job, that is, on every record of it. *)
Theorem extract_keeps_every_question (en hi : list MonolingualQuestionRecord) :
  length hi < length en →
  length (records (extract en hi)) = length en
  ∧ (∀ (i : nat) e h, en !! i = Some e → hi !! i = Some h →
       ∃ r, records (extract en hi) !! i = Some r
            ∧ id r = (Z.of_nat i + 1)%Z ∧ english r = Some e ∧ hindi r = Some h)
  ∧ (∀ (i : nat) e, en !! i = Some e → length hi ≤ i →
       ∃ r, records (extract en hi) !! i = Some r
            ∧ id r = (Z.of_nat i + 1)%Z ∧ english r = Some e ∧ hindi r = None
            ∧ missing_hindi ∈ flags r)
  ∧ job_count_mismatch (extract en hi) = true
  ∧ Forall (λ r, count_mismatch ∈ flags r) (records (extract en hi)).
Proof.
  intros Hlen.
  assert (Hmis : negb (length en =? length hi) = true).
  { apply negb_true_iff, Nat.eqb_neq. lia. }
  split_and!.
  - simpl. rewrite length_fmap, length_align. lia.
  - intros i e h He Hh. simpl.
    rewrite list_lookup_fmap, lookup_align, He, Hh
      by (apply lookup_lt_Some in He; lia).
    by eexists.
  - intros i e He Hi. simpl.
    rewrite list_lookup_fmap, lookup_align, He, (lookup_ge_None_2 hi)
      by (done || apply lookup_lt_Some in He; lia).
    eexists. split; [done|]. split_and!; try done.
    by apply score_keeps_flag, missing_hindi_flag.
  - done.
  - simpl. apply Forall_fmap, Forall_forall. intros r Hr.
    apply list_elem_of_lookup in Hr as [i Hr].
    pose proof (lookup_lt_Some _ _ _ Hr) as Hi. rewrite length_align in Hi.
    rewrite lookup_align, Hmis in Hr by done. injection Hr as <-.
    by apply score_keeps_flag, count_mismatch_flag.
Qed.

(** The theorem on three English questions and two Hindi ones. *)
Lemma extract_keeps_every_question_witness :
  length sample_hindi < length sample_english
  ∧ length (Pipeline.records (Pipeline.extract sample_english sample_hindi)) = 3
  ∧ Forall (λ r, count_mismatch ∈ Pipeline.flags r)
      (Pipeline.records (Pipeline.extract sample_english sample_hindi)).
Proof.
  assert (Hlen : length sample_hindi < length sample_english) by (simpl; lia).
  destruct (extract_keeps_every_question sample_english sample_hindi Hlen)
    as (Hn & _ & _ & _ & Hjob).
  done.
Defined.

Lemma penalty_nil : (penalty [] == 1)%Q.
Proof. reflexivity. Qed.

Lemma penalty_single (f : QuestionFlag) :
  penalized f = true → (0 < penalty [f] ∧ penalty [f] < 1)%Q.
Proof. destruct f; try discriminate; intros _; by vm_compute. Qed.

Lemma start_confidence_range (a : option MonolingualQuestionRecord) :
  (0 <= from_option start_confidence 0 a ∧ from_option start_confidence 0 a <= 1)%Q.
Proof.
  destruct a as [m|]; simpl; [|by vm_compute].
  unfold start_confidence. destruct (boundary m); by vm_compute.
Qed.

(** A factor below one lowers whatever the clamp lets through. *)
Lemma clamp_penalty (s p one : Q) :
  (0 <= s)%Q → (s <= 1)%Q → (one == 1)%Q → (0 < p)%Q → (p < 1)%Q →
  ¬ (clamp (s * one) == 0)%Q →
  (clamp (s * p) < clamp (s * one))%Q.
Proof.
  intros Hs0 Hs1 Hone Hp0 Hp1. unfold clamp.
  destruct (Qlt_le_dec (s * one) 0) as [Hneg|Hnn]; [intros []; reflexivity|].
  assert (Hsone : (s * one == s)%Q) by (rewrite Hone; ring).
  destruct (Qlt_le_dec 1 (s * one)) as [Hbig|_]; [lra|].
  intros Hnz.
  assert (Hpos : (0 < s)%Q) by lra.
  assert (Hlt : (s * p < s)%Q) by nra.
  assert (Hge : (0 < s * p)%Q) by nra.
  destruct (Qlt_le_dec (s * p) 0); [lra|].
  destruct (Qlt_le_dec 1 (s * p)); lra.
Qed.

(** C7.  On a record with no flag and a non-zero confidence, one penalized
    flag more makes the recomputed confidence strictly smaller. *)
Theorem penalized_flag_lowers_confidence (r : BilingualQuestionRecord) (f : QuestionFlag) :
  flags r = [] →
  penalized f = true →
  ¬ (confidence (score r) == 0)%Q →
  (confidence (score (add_flag f r)) < confidence (score r))%Q.
Proof.
  intros Hflags Hf. unfold score, recompute_confidence, add_flag in *.
  simpl. rewrite Hflags. simpl.
  destruct (penalty_single f Hf) as [Hp0 Hp1].
  destruct (start_confidence_range (anchor r)) as [Hs0 Hs1].
  by apply clamp_penalty.
Qed.

(** The theorem on a clean record found by a heading, with
    [missing_options] added: 0.56 against 0.8. *)
Lemma penalized_flag_lowers_confidence_witness :
  Pipeline.flags clean_record = []
  ∧ ¬ (Pipeline.confidence (Pipeline.score clean_record) == 0)%Q
  ∧ (Pipeline.confidence (Pipeline.score (Pipeline.add_flag missing_options clean_record))
     < Pipeline.confidence (Pipeline.score clean_record))%Q.
Proof.
  assert (Hnz : ¬ (Pipeline.confidence (Pipeline.score clean_record) == 0)%Q)
    by (intros Hz; vm_compute in Hz; discriminate Hz).
  split; [reflexivity|]. split; [exact Hnz|].
  by apply (penalized_flag_lowers_confidence clean_record missing_options).
Defined.

End pipeline.

(** * The address of the back end, the cards and the upload page *)

(** ** Strings *)

Section strings.
Implicit Types (s t r a b : list N).

Lemma String_includes_spec t s :
  String_includes t s = true ↔ ∃ a b, s = a ++ t ++ b.
Proof.
  induction s as [|c s IH]; simpl.
  - rewrite orb_false_r, bool_decide_eq_true. split.
    + intros [b ->]. by exists [], b.
    + intros (a & b & Heq). symmetry in Heq.
      apply app_eq_nil in Heq as [-> [-> ->]%app_eq_nil]. by exists [].
  - rewrite orb_true_iff, bool_decide_eq_true, IH. split.
    + intros [[b ->]|(a & b & ->)]; [by exists [], b|by exists (c :: a), b].
    + intros ([|c' a] & b & Heq); simpl in Heq.
      * left. by exists b.
      * right. injection Heq as -> ->. by exists a, b.
Qed.

Lemma String_includes_app_r a t s :
  String_includes (a ++ t) s = true → String_includes t s = true.
Proof.
  rewrite !String_includes_spec. intros (x & y & ->).
  exists (x ++ a), y. by rewrite <- !app_assoc.
Qed.

(** A string without the pattern is returned as it is. *)
Lemma String_replace_absent t r s :
  String_includes t s = false → String_replace t r s = s.
Proof.
  induction s as [|c s IH]; simpl.
  - intros [Hp _]%orb_false_iff. by rewrite Hp.
  - intros [Hp Hs]%orb_false_iff. rewrite Hp. f_equal. by apply IH.
Qed.

(** The first occurrence is the one replaced. *)
Lemma String_replace_first t r a b :
  t ≠ [] → String_includes t (a ++ removelast t) = false →
  String_replace t r (a ++ t ++ b) = a ++ r ++ b.
Proof.
  intros Ht. induction a as [|c a IH]; intros Hfree.
  - simpl. destruct t as [|c t]; [done|].
    simpl. rewrite bool_decide_eq_true_2 by (by apply prefix_cons, prefix_app_r).
    by rewrite drop_app_length.
  - simpl in Hfree. apply orb_false_iff in Hfree as [Hp Hfree].
    simpl. rewrite bool_decide_eq_false_2.
    + f_equal. by apply IH.
    + intros Hpre. apply bool_decide_eq_false in Hp. apply Hp. clear IH Hfree Hp.
      destruct (exists_last Ht) as (t' & x & ->). rewrite removelast_last.
      assert (Hpre' : (c :: a ++ t') `prefix_of` (c :: a ++ (t' ++ [x]) ++ b)).
      { exists ([x] ++ b). simpl. by rewrite <- !app_assoc. }
      destruct (prefix_weak_total _ _ _ Hpre Hpre') as [H|H]; [done|].
      pose proof (prefix_length _ _ H) as Hlen.
      simpl in Hlen. rewrite !length_app in Hlen. simpl in Hlen.
      destruct a as [|c' a]; [|simpl in Hlen; lia].
      apply prefix_length_eq in H; [by rewrite H|].
      simpl. rewrite !length_app. simpl. lia.
Qed.

End strings.

(** ** getApiUrl *)

Section api_url.
Implicit Types (s p port rest after : list N).

Lemma skip_digits_app port c rest :
  all_digits port → is_digit c = false →
  skip_digits (port ++ c :: rest) = c :: rest.
Proof.
  intros Hport Hc. induction Hport as [|d port Hd _ IH]; simpl.
  - by rewrite Hc.
  - by rewrite Hd.
Qed.

(** Before the first dot of a string, the digits after a dash are followed
    by something that is no dot. *)
Lemma skip_digits_no_dot p rest :
  46%N ∉ p → ∃ x y, skip_digits (p ++ 45%N :: rest) = x :: y ∧ x ≠ 46%N.
Proof.
  induction p as [|c p IH]; intros Hp.
  - by exists 45%N, rest.
  - apply not_elem_of_cons in Hp as [Hc Hp]. simpl.
    destruct (is_digit c); [by apply IH|]. by exists c, (p ++ 45%N :: rest).
Qed.

Lemma match_port_no_dot after c p rest :
  46%N ∉ c :: p → match_port (46%N :: after) (c :: p ++ 45%N :: rest) = None.
Proof.
  intros [Hc Hp]%not_elem_of_cons. unfold match_port.
  destruct (p ++ 45%N :: rest) as [|d s'] eqn:Hs; [done|].
  destruct ((c =? 45)%N && is_digit d) eqn:Hhead; [|done].
  rewrite <- Hs. destruct (skip_digits_no_dot p rest Hp) as (x & y & -> & Hx).
  rewrite bool_decide_eq_false_2; [done|].
  intros [k Hk]. simpl in Hk. by injection Hk.
Qed.

Lemma match_port_here after port rest :
  port ≠ [] → all_digits port →
  match_port (46%N :: after) (45%N :: port ++ 46%N :: after ++ rest) = Some rest.
Proof.
  intros Hne Hport. destruct port as [|d port]; [done|].
  pose proof Hport as [Hd _]%Forall_cons.
  assert (Hskip : skip_digits ((d :: port) ++ 46%N :: after ++ rest)
                  = 46%N :: after ++ rest).
  { apply (skip_digits_app (d :: port) 46%N (after ++ rest)); done. }
  unfold match_port. cbn [app] in *. rewrite N.eqb_refl, Hd. cbn [andb].
  rewrite Hskip.
  rewrite bool_decide_eq_true_2 by (by exists rest).
  change (46%N :: after ++ rest) with ((46%N :: after) ++ rest).
  by rewrite drop_app_length.
Qed.

Lemma replace_port_unfold after s :
  replace_port after s
  = match match_port after s with
    | Some rest => lit "-8000" ++ after ++ rest
    | None =>
        match s with
        | [] => []
        | c :: s' => c :: replace_port after s'
        end
    end.
Proof. by destruct s. Qed.

(** The first dash that has a port behind it is the one whose port is
    replaced: nothing before the first dot of the string matches. *)
Lemma replace_port_first after p port rest :
  46%N ∉ p → port ≠ [] → all_digits port →
  replace_port (46%N :: after) (p ++ 45%N :: port ++ 46%N :: after ++ rest)
  = p ++ lit "-8000" ++ 46%N :: after ++ rest.
Proof.
  intros Hp Hne Hport. induction p as [|c p IH].
  - rewrite replace_port_unfold. cbn [app].
    by rewrite (match_port_here after port rest Hne Hport).
  - rewrite replace_port_unfold. cbn [app].
    rewrite (match_port_no_dot after c p (port ++ 46%N :: after ++ rest) Hp).
    f_equal. apply IH. by apply not_elem_of_cons in Hp as [_ Hp].
Qed.

(** Without a dash there is nothing to replace. *)
Lemma replace_port_no_dash after s : 45%N ∉ s → replace_port after s = s.
Proof.
  induction s as [|c s IH]; intros Hs; [done|].
  apply not_elem_of_cons in Hs as [Hc Hs].
  rewrite replace_port_unfold.
  assert (match_port after (c :: s) = None) as ->.
  { unfold match_port. destruct s; [done|].
    by destruct (N.eqb_spec c 45) as [->|_]. }
  f_equal. by apply IH.
Qed.

(** The address of the back end the upload page, the preview editor and the
    cards compute.  Without a window, or on a host that is no
    [github.dev] one, it is [http://localhost:8000].  On an
    [app.github.dev] host whose origin is [p-<port>.app.github.dev...], with
    no dot in [p], it is the origin with the port replaced by 8000, whatever
    the port is; the three components compute the same address. *)
Theorem getApiUrl_replaces_the_port (window : option Location) :
  PreviewEditor.getApiUrl window = QuestionCard.getApiUrl window
  ∧ FileUpload.getApiUrl window = QuestionCard.getApiUrl window
  ∧ (window = None → QuestionCard.getApiUrl window = lit "http://localhost:8000")
  ∧ (∀ l, window = Some l →
       String_includes (lit "github.dev") (hostname l) = false →
       QuestionCard.getApiUrl window = lit "http://localhost:8000")
  ∧ (∀ l p port rest, window = Some l →
       String_includes (lit "app.github.dev") (hostname l) = true →
       origin l = p ++ lit "-" ++ port ++ lit ".app.github.dev" ++ rest →
       46%N ∉ p → port ≠ [] → all_digits port →
       QuestionCard.getApiUrl window = p ++ lit "-8000.app.github.dev" ++ rest).
Proof.
  split_and!; try done.
  - by intros ->.
  - intros l -> Hhost. unfold QuestionCard.getApiUrl. rewrite Hhost.
    destruct (String_includes (lit "app.github.dev") (hostname l)) eqn:Happ; [|done].
    apply (String_includes_app_r (lit "app.") (lit "github.dev")) in Happ. congruence.
  - intros l p port rest -> Hhost Horigin Hp Hne Hport.
    unfold QuestionCard.getApiUrl. rewrite Hhost, Horigin.
    apply (replace_port_first (lit "app.github.dev") p port rest Hp Hne Hport).
Qed.

(** On the origin [https://my-space-5174.app.github.dev]. *)
Lemma getApiUrl_replaces_the_port_witness :
  QuestionCard.getApiUrl (Some codespace_5174)
  = lit "https://my-space-8000.app.github.dev".
Proof.
  apply (proj2 (proj2 (proj2 (proj2 (getApiUrl_replaces_the_port (Some codespace_5174)))))
           codespace_5174 (lit "https://my-space") (lit "5174") [] eq_refl).
  - by vm_compute.
  - done.
  - apply (bool_decide_unpack _). by vm_compute.
  - done.
  - unfold all_digits. by repeat constructor.
Defined.

(** The address of the back end the app and the add-question form compute:
    the test on [app.github.dev] decides nothing, and on a [github.dev]
    host only the text [5173] of the origin is rewritten, so that an origin
    without it is returned as it is: the page's own address. *)
Theorem getApiUrl_rewrites_5173 (window : option Location) :
  AddQuestionForm.getApiUrl window = App.getApiUrl window
  ∧ App.getApiUrl window
    = match window with
      | Some l =>
          if String_includes (lit "github.dev") (hostname l)
          then String_replace (lit "5173") (lit "8000") (origin l)
          else lit "http://localhost:8000"
      | None => lit "http://localhost:8000"
      end
  ∧ (∀ l, window = Some l →
       String_includes (lit "github.dev") (hostname l) = true →
       String_includes (lit "5173") (origin l) = false →
       App.getApiUrl window = origin l)
  ∧ (∀ l a b, window = Some l →
       String_includes (lit "github.dev") (hostname l) = true →
       origin l = a ++ lit "5173" ++ b →
       String_includes (lit "5173") (a ++ lit "517") = false →
       App.getApiUrl window = a ++ lit "8000" ++ b).
Proof.
  split_and!; try done.
  - destruct window as [l|]; [|done]. unfold App.getApiUrl.
    destruct (String_includes (lit "github.dev") (hostname l)) eqn:Hhost; [done|].
    destruct (String_includes (lit "app.github.dev") (hostname l)) eqn:Happ; [|done].
    apply (String_includes_app_r (lit "app.") (lit "github.dev")) in Happ. congruence.
  - intros l -> Hhost Hport. unfold App.getApiUrl. rewrite Hhost.
    by apply String_replace_absent.
  - intros l a b -> Hhost Horigin Hfirst. unfold App.getApiUrl. rewrite Hhost, Horigin.
    by apply (String_replace_first (lit "5173")).
Qed.

(** On the origin [https://my-space-5174.app.github.dev] the form posts
    its images to the page's own address. *)
Lemma getApiUrl_rewrites_5173_witness :
  upload_url (AddQuestionForm.getApiUrl (Some codespace_5174)) (lit "job")
  = lit "https://my-space-5174.app.github.dev/jobs/job/upload-image".
Proof.
  destruct (getApiUrl_rewrites_5173 (Some codespace_5174)) as (-> & _ & Hsame & _).
  rewrite (Hsame codespace_5174 eq_refl); [done|by vm_compute|by vm_compute].
Defined.

End api_url.

(** ** The labels a submit leaves, and what add-option makes of them *)

Section submitted_labels.
Import AddQuestionForm.

(** The upload loop changes no label. *)
Lemma uploadOptionImages_labels (job : list N) (imgs : gmap (list N) UploadedImage)
    (opts : list Option.t) (server : list (option ImageData.t)) :
  labels_of (uploadOptionImages job imgs opts server).1 = labels_of opts.
Proof.
  revert server. induction opts as [|opt opts IH]; intros server; [done|].
  simpl. unfold net_bind.
  destruct (optionImage_file imgs (Option.label opt)) as [optFile|].
  - unfold uploadImage, net_ret.
    destruct server as [|[d|] server];
      match goal with
      | |- context [uploadOptionImages job imgs opts ?s] =>
          specialize (IH s); destruct (uploadOptionImages job imgs opts s)
      end; simpl in *; by rewrite IH.
  - unfold net_ret.
    specialize (IH server). destruct (uploadOptionImages job imgs opts server).
    simpl in *. by rewrite IH.
Qed.

Lemma labels_of_filter (p : Option.t → bool) (os : list Option.t) :
  labels_of (List.filter p os) `sublist_of` labels_of os.
Proof.
  induction os as [|o os IH]; [done|]. simpl.
  destruct (p o); simpl; by constructor.
Qed.

(** The options of a submitted question are the ones that have a text
    once the images are uploaded. *)
Lemma handleSubmit_options (props : Props) (st st' : State) (q : Question.t)
    (server server' : list (option ImageData.t)) :
  handleSubmit props st server = (st', Some q, server') →
  ∃ opts,
    labels_of opts = labels_of (options st)
    ∧ Forall2 (λ o o', Option.has_text o = true → Option.has_text o' = true)
        (options st) opts
    ∧ Question.options q = List.filter Option.has_text opts.
Proof.
  unfold handleSubmit.
  destruct (negb (truthy (trim (english_text (formData st))))
            && negb (truthy (trim (hindi_text (formData st))))); [done|].
  destruct (bool_decide (question_type (formData st) = multiple_choice)
            && (length (List.filter Option.has_text (options st)) <? 2)); [done|].
  unfold net_bind, net_ret.
  destruct (uploadQuestionImages (jobId props) (questionImages st) [] server)
    as [imgs server1].
  pose proof (uploadOptionImages_labels (jobId props) (optionImages st)
                (options st) server1) as Hlabels.
  pose proof (uploadOptionImages_has_text (jobId props) (optionImages st)
                (options st) server1) as Htext.
  destruct (uploadOptionImages (jobId props) (optionImages st) (options st) server1)
    as [opts server2].
  intros [= _ <- _]. by exists opts.
Qed.

(** [handleSubmit] drops the options without a text and relabels nothing:
    the labels of the question it hands to [onAdd] are labels of the form,
    in their order, and the label of every option of the form that has a
    text is among them.  So an option left empty between two others leaves
    a gap in the labels. *)
Theorem submit_keeps_the_labels (props : Props) (st st' : State) (q : Question.t)
    (server server' : list (option ImageData.t)) :
  handleSubmit props st server = (st', Some q, server') →
  labels_of (Question.options q) `sublist_of` labels_of (options st)
  ∧ ∀ o : Option.t, o ∈ options st → Option.has_text o = true →
      Option.label o ∈ labels_of (Question.options q).
Proof.
  intros (opts & Hlabels & Htext & ->)%handleSubmit_options. split.
  - rewrite <- Hlabels. apply labels_of_filter.
  - intros o Ho Hhas.
    apply list_elem_of_lookup in Ho as [i Hi].
    destruct (Forall2_lookup_l _ _ _ _ _ Htext Hi) as (o' & Hi' & Hkeep).
    assert (Hlabel : Option.label o' = Option.label o).
    { apply (f_equal (λ l, l !! i)) in Hlabels. unfold labels_of in Hlabels.
      rewrite !list_lookup_fmap, Hi, Hi' in Hlabels. simpl in Hlabels. congruence. }
    rewrite <- Hlabel. apply list_elem_of_fmap_2, elem_of_List_filter.
    split; [|by apply Hkeep]. by eapply list_elem_of_lookup_2.
Qed.

(** The form with option B left empty submits the options A, C and D. *)
Lemma submit_keeps_the_labels_witness :
  ∃ st' q,
    handleSubmit sample_props gapped_form [] = (st', Some q, [])
    ∧ Question.options q = Question.options gapped_question
    ∧ labels_of (Question.options q) `sublist_of` [lit "A"; lit "B"; lit "C"; lit "D"].
Proof.
  eexists _, _. split; [reflexivity|]. split; [reflexivity|].
  apply (submit_keeps_the_labels sample_props gapped_form _ _ [] [] eq_refl).
Defined.

(** Add-option on a card whose list already has the label of the next
    position gives that label twice. *)
Theorem card_add_duplicates_a_label (card : QuestionCard.State) :
  label_at (length (card_options card)) ∈ labels_of (card_options card) →
  labels_of (card_options (QuestionCard.handleAddOption card))
  = labels_of (card_options card) ++ [label_at (length (card_options card))]
  ∧ ¬ NoDup (labels_of (card_options (QuestionCard.handleAddOption card))).
Proof.
  intros Hin.
  assert (Hlabels : labels_of (card_options (QuestionCard.handleAddOption card))
                    = labels_of (card_options card)
                      ++ [label_at (length (card_options card))]).
  { unfold labels_of, card_options. simpl. by rewrite fmap_app. }
  split; [done|]. rewrite Hlabels. intros (_ & Hdisjoint & _)%NoDup_app.
  apply (Hdisjoint _ Hin). by left.
Qed.

(** On the card of the question submitted with the options A, C and D,
    add-option appends a second D. *)
Lemma card_add_duplicates_a_label_witness :
  labels_of (card_options (QuestionCard.handleAddOption (QuestionCard.initial gapped_question)))
  = [lit "A"; lit "C"; lit "D"; lit "D"]
  ∧ ¬ NoDup (labels_of
               (card_options
                  (QuestionCard.handleAddOption (QuestionCard.initial gapped_question)))).
Proof.
  assert (Hin : label_at (length (card_options (QuestionCard.initial gapped_question)))
                ∈ labels_of (card_options (QuestionCard.initial gapped_question))).
  { apply (bool_decide_unpack _). by vm_compute. }
  split; [reflexivity|].
  apply (card_add_duplicates_a_label (QuestionCard.initial gapped_question) Hin).
Defined.

(** Removing an option of the form keeps the answer whenever its label is
    still a label of the list, and clears it otherwise.  The labels are the
    positions', so the answer [label_at i] of a list labelled by position
    is kept when an option at or before [i] is removed and there is an
    option behind: it then designates the option that came after the one
    it designated. *)
Theorem removal_keeps_the_answer_label (index i : nat) (st : State) :
  2 < length (options st) →
  (answer (formData (handleRemoveOption index st)) = []
   ∨ answer (formData (handleRemoveOption index st)) = answer (formData st)
     ∧ answer (formData st) ∈ labels_of (options (handleRemoveOption index st)))
  ∧ (answer (formData st) = label_at i → index ≤ i → S i < length (options st) →
     answer (formData (handleRemoveOption index st)) = label_at i
     ∧ Option.label <$> options (handleRemoveOption index st) !! i = Some (label_at i)
     ∧ Option.content <$> options (handleRemoveOption index st) !! i
       = Option.content <$> options st !! S i).
Proof.
  intros Hlen.
  assert (Hoptions : options (handleRemoveOption index st)
                     = imap (λ i opt, Option.with_label (label_at i) opt)
                         (delete index (options st))).
  { rewrite form_remove_options.
    by destruct (Nat.leb_spec (length (options st)) 2); [lia|]. }
  assert (Hanswer : answer (formData (handleRemoveOption index st))
                    = if truthy (answer (formData st))
                         && negb (bool_decide
                              (answer (formData st)
                               ∈ labels_of (options (handleRemoveOption index st))))
                      then [] else answer (formData st)).
  { rewrite Hoptions. unfold handleRemoveOption.
    destruct (Nat.leb_spec (length (options st)) 2); [lia|].
    rewrite Array_filter_delete.
    set (os := imap (λ i opt, Option.with_label (label_at i) opt)
                 (delete index (options st))).
    assert (Hfind : bool_decide
                      (is_Some (Array_find
                         (λ o, string_eqb (Option.label o) (answer (formData st))) os))
                    = bool_decide (answer (formData st) ∈ labels_of os)).
    { apply bool_decide_ext. unfold Array_find, labels_of. split.
      - intros [o Ho]. apply List.find_some in Ho as [Ho Heq].
        apply bool_decide_eq_true in Heq. rewrite <- Heq.
        apply list_elem_of_fmap_2. by apply list_elem_of_In.
      - intros (o & Heq & Ho)%list_elem_of_fmap.
        destruct (List.find _ os) as [o'|] eqn:Hfind; [by eexists|].
        apply list_elem_of_In in Ho.
        pose proof (List.find_none _ _ Hfind o Ho) as Hno.
        apply bool_decide_eq_false in Hno. by destruct Hno. }
    rewrite Hfind.
    by destruct (truthy (answer (formData st))
                 && negb (bool_decide (answer (formData st) ∈ labels_of os))). }
  split.
  - rewrite Hanswer.
    destruct (answer (formData st)) as [|c a] eqn:Ha; [by left|]. simpl.
    destruct (decide (c :: a ∈ labels_of (options (handleRemoveOption index st))))
      as [Hin|Hout].
    + rewrite bool_decide_eq_true_2 by done. simpl. by right.
    + rewrite bool_decide_eq_false_2 by done. simpl. by left.
  - intros Hi Hindex Hbehind.
    assert (Hlookup : options (handleRemoveOption index st) !! i
                      = Option.with_label (label_at i) <$> options st !! S i).
    { rewrite Hoptions, list_lookup_imap, list_lookup_delete_ge by done.
      by destruct (options st !! S i). }
    destruct (lookup_lt_is_Some_2 (options st) (S i) Hbehind) as [o Ho].
    rewrite Ho in Hlookup. simpl in Hlookup.
    assert (Hin : label_at i ∈ labels_of (options (handleRemoveOption index st))).
    { apply list_elem_of_fmap. exists (Option.with_label (label_at i) o).
      split; [done|]. by eapply list_elem_of_lookup_2. }
    split_and!.
    + rewrite Hanswer, Hi, bool_decide_eq_true_2 by done.
      by rewrite andb_false_r.
    + by rewrite Hlookup.
    + by rewrite Hlookup, Ho.
Qed.

(** The form with the options A (3), B (4) and C (5) and the answer B:
    once option B is removed, the answer is still B, which is now the
    option that says 5. *)
Lemma removal_keeps_the_answer_label_witness :
  answer (formData (handleRemoveOption 1 answered_form)) = lit "B"
  ∧ options (handleRemoveOption 1 answered_form) !! 1
    = Some (Option.mk (lit "B") (lit "5") [] None None).
Proof.
  destruct (removal_keeps_the_answer_label 1 1 answered_form) as [_ Hkeep];
    [simpl; lia|].
  destruct Hkeep as (Hanswer & _ & _); [reflexivity|lia|simpl; lia|].
  split; [exact Hanswer|reflexivity].
Defined.

(** A question the form has submitted has confidence 1.0 and no flag, so
    that the editor, which expands it, does not show it while the flagged
    or the low-confidence filter is on. *)
Theorem added_question_is_filtered_out (props : Props) (form form' : State)
    (q : Question.t) (server server' : list (option ImageData.t))
    (st : PreviewEditor.State) :
  handleSubmit props form server = (form', Some q, server') →
  q ∈ PreviewEditor.questions (PreviewEditor.handleAddQuestion q st)
  ∧ PreviewEditor.expandedId (PreviewEditor.handleAddQuestion q st) = Some (Question.id q)
  ∧ PreviewEditor.showAddForm (PreviewEditor.handleAddQuestion q st) = false
  ∧ (PreviewEditor.filter st ≠ PreviewEditor.all →
     q ∉ PreviewEditor.filteredQuestions (PreviewEditor.handleAddQuestion q st)).
Proof.
  intros (_ & _ & imgs & opts & _ & ->)%handleSubmit_Some. split_and!; try done.
  - simpl. apply elem_of_app. right. by left.
  - intros Hfilter. unfold PreviewEditor.filteredQuestions.
    rewrite elem_of_List_filter. intros [_ Hshown]. simpl in Hshown.
    by destruct (PreviewEditor.filter st).
Qed.

(** The question of the filled-in form, added while the flagged filter is
    on: the list has four questions, and none is shown. *)
Lemma added_question_is_filtered_out_witness :
  ∃ form' q,
    handleSubmit sample_props filled_form sample_server = (form', Some q, [])
    ∧ length (PreviewEditor.questions
                (PreviewEditor.handleAddQuestion q
                   (PreviewEditor.setFilter PreviewEditor.flagged sample_editor))) = 4
    ∧ (q ∉ PreviewEditor.filteredQuestions
             (PreviewEditor.handleAddQuestion q
                (PreviewEditor.setFilter PreviewEditor.flagged sample_editor))).
Proof.
  eexists _, _. split; [reflexivity|]. split; [reflexivity|].
  by apply (added_question_is_filtered_out sample_props filled_form _ _
              sample_server [] (PreviewEditor.setFilter PreviewEditor.flagged sample_editor)
              eq_refl).
Defined.

End submitted_labels.

(** ** What the inputs of a card can change *)

Section card_edits.
Import QuestionCard.

Lemma card_step_review_data (st : State) (ev : CardEvent) :
  review_data (editData (card_step st ev)) = review_data (editData st)
  ∧ uploading (card_step st ev) = uploading st.
Proof.
  destruct ev; simpl; try done.
  - unfold handleOptionChange.
    by destruct (Question.options (editData st) !! index).
  - unfold handleRemoveOption.
    by destruct (length (Question.options (editData st)) <=? 2).
  - by destruct files.
  - unfold handleOptionImageSelect. by destruct (files ≫= head).
Qed.

Lemma card_run_review_data (st : State) (events : list CardEvent) :
  review_data (editData (foldl card_step st events)) = review_data (editData st)
  ∧ uploading (foldl card_step st events) = uploading st.
Proof.
  revert st. induction events as [|ev events IH]; intros st; [done|]. simpl.
  destruct (IH (card_step st ev)) as [-> ->]. apply card_step_review_data.
Qed.

(** The images of the question are the first of the images a save leaves. *)
Lemma uploadQuestionImages_prefix (job : list N) (imgs : list UploadedImage)
    (acc : list ImageData.t) (server : list (option ImageData.t)) :
  acc `prefix_of` (uploadQuestionImages job imgs acc server).1.
Proof.
  revert acc server. induction imgs as [|img imgs IH]; intros acc server; [done|].
  simpl. unfold net_bind, uploadImage.
  destruct server as [|[d|] server]; try apply IH.
  etrans; [|apply IH]. by apply prefix_app_r.
Qed.

(** Whatever is typed, picked and clicked in a card, the record it edits
    keeps its id, its confidence, its flags and its tables, and so does the
    question Save hands to the editor: the review of a record by a human
    neither clears a flag nor changes the confidence.  Cancel gives the
    card of the question back. *)
Theorem card_edit_keeps_review_data (question : Question.t) (events : list CardEvent)
    (job : list N) (server : list (option ImageData.t)) :
  review_data (editData (foldl card_step (initial question) events))
  = review_data question
  ∧ review_data (saved_question job (foldl card_step (initial question) events) server)
    = review_data question
  ∧ handleCancel question (foldl card_step (initial question) events) = initial question.
Proof.
  destruct (card_run_review_data (initial question) events) as [Hdata Huploading].
  split_and!.
  - done.
  - destruct (saved_question_unfold job (foldl card_step (initial question) events) server)
      as (imgs & opts & ->).
    by etrans; [|exact Hdata].
  - unfold handleCancel. by rewrite Huploading.
Qed.

(** A flagged question of confidence 0.4 whose Hindi text is typed in and
    which is given a third option: the saved question has the two flags
    and the confidence it had. *)
Lemma card_edit_keeps_review_data_witness :
  Question.flags
    (saved_question (lit "job")
       (foldl card_step (initial flagged_question)
          [edit_clicked; hindi_typed (lit "do aur do"); add_option_clicked;
           option_typed 2 Option.english_text_field (lit "5")]) [])
  = [lit "missing_hindi"; lit "incomplete_options"]
  ∧ Question.hindi_text
      (saved_question (lit "job")
         (foldl card_step (initial flagged_question)
            [edit_clicked; hindi_typed (lit "do aur do"); add_option_clicked;
             option_typed 2 Option.english_text_field (lit "5")]) [])
    = lit "do aur do".
Proof.
  split; [|reflexivity].
  pose proof (card_edit_keeps_review_data flagged_question
                [edit_clicked; hindi_typed (lit "do aur do"); add_option_clicked;
                 option_typed 2 Option.english_text_field (lit "5")] (lit "job") [])
    as (_ & Hsaved & _).
  exact (f_equal (λ d, d.1.1.1.1.2) Hsaved).
Defined.

(** What a save leaves of the record beyond that: the texts, the type, the
    answer, the solutions and the grading as they were typed, the images of
    the record before the uploaded ones, and options with the labels and
    the Hindi texts they had.  A save with no image picked hands the record
    over as it is and sends nothing. *)
Theorem handleSave_frame (job : list N) (card : State)
    (server : list (option ImageData.t)) :
  (Question.english_text (saved_question job card server),
   Question.hindi_text (saved_question job card server),
   Question.question_type (saved_question job card server),
   Question.answer (saved_question job card server),
   Question.solution_english (saved_question job card server),
   Question.solution_hindi (saved_question job card server),
   Question.grading (saved_question job card server))
  = (Question.english_text (editData card), Question.hindi_text (editData card),
     Question.question_type (editData card), Question.answer (editData card),
     Question.solution_english (editData card), Question.solution_hindi (editData card),
     Question.grading (editData card))
  ∧ Question.images (editData card)
    `prefix_of` Question.images (saved_question job card server)
  ∧ labels_of (Question.options (saved_question job card server))
    = labels_of (Question.options (editData card))
  ∧ (handleSave job card server).1.1 = mk false (editData card) [] ∅ false
  ∧ (newQuestionImages card = [] →
     Forall (λ o, optionImage_file (optionImages card) (Option.label o) = None)
       (Question.options (editData card)) →
     handleSave job card server
     = (mk false (editData card) [] ∅ false, editData card, server)).
Proof.
  split_and!.
  - by destruct (saved_question_unfold job card server) as (imgs & opts & ->).
  - unfold saved_question, handleSave, net_bind, net_ret.
    pose proof (uploadQuestionImages_prefix job (newQuestionImages card)
                  (Question.images (editData card)) server) as Hprefix.
    destruct (uploadQuestionImages _ _ _ _) as [imgs server1].
    by destruct (uploadOptionImages _ _ _ _) as [opts server2].
  - unfold saved_question, handleSave, net_bind, net_ret.
    destruct (uploadQuestionImages _ _ _ _) as [imgs server1].
    pose proof (uploadOptionImages_labels job (optionImages card)
                  (Question.options (editData card)) server1) as Hlabels.
    by destruct (uploadOptionImages _ _ _ _) as [opts server2].
  - unfold handleSave, net_bind, net_ret.
    destruct (uploadQuestionImages _ _ _ _) as [imgs server1].
    by destruct (uploadOptionImages _ _ _ _) as [opts server2].
  - intros Hnone Hopts. unfold handleSave, net_bind, net_ret. rewrite Hnone. simpl.
    assert (Hsame : uploadOptionImages job (optionImages card)
                      (Question.options (editData card)) server
                    = (Question.options (editData card), server)).
    { induction Hopts as [|o os Ho _ IH]; [done|].
      simpl. unfold net_bind, net_ret. by rewrite Ho, IH. }
    rewrite Hsame. by destruct (editData card).
Qed.

(** The card of question 2, saved as it is. *)
Lemma handleSave_frame_witness :
  handleSave (lit "job") (initial (sample_question 2)) sample_server
  = (initial (sample_question 2), sample_question 2, sample_server).
Proof.
  apply (proj2 (proj2 (proj2 (proj2
    (handleSave_frame (lit "job") (initial (sample_question 2)) sample_server)))));
    [reflexivity|]. by repeat constructor.
Defined.

End card_edits.

(** ** The upload page *)

Section upload_page.
Import FileUpload.

Lemma handleDrop_holds (files : list File) (type : Side) (st : State) :
  holds_docx st → holds_docx (handleDrop files type st).1.
Proof.
  intros Hst. unfold handleDrop.
  destruct (head files) as [f|]; [|exact Hst].
  destruct (String_endsWith (lit ".docx") (file_name f)) eqn:Hname; [|exact Hst].
  intros side f'. specialize (Hst side f').
  destruct type, side; simpl in *; try done; by intros [= <-].
Qed.

(** Whatever is dropped on the two boxes, the files the page holds are
    named [….docx]: a drop of another file is answered with an error and
    changes no file.  And without both files [handleUpload] sends nothing:
    it reports that both are to be selected. *)
Theorem drops_hold_docx (events : list (list File * Side)) :
  holds_docx (foldl drop_step initial events)
  ∧ (∀ (files : list File) (type : Side) (st : State) (f : File),
       head files = Some f → String_endsWith (lit ".docx") (file_name f) = false →
       handleDrop files type st
       = (setDragOver None st, Some (onError (lit "Please upload a .docx file"))))
  ∧ (∀ (outcome : list N + list N) (st : State),
       englishFile st = None ∨ hindiFile st = None →
       handleUpload outcome st
       = (st, onError (lit "Please select both English and Hindi files"))).
Proof.
  split_and!.
  - assert (Hinit : holds_docx initial) by (by intros []).
    revert Hinit. generalize initial.
    induction events as [|[files type] events IH]; intros st Hst; [done|].
    apply IH. by apply handleDrop_holds.
  - intros files type st f Hf Hname. unfold handleDrop. by rewrite Hf, Hname.
  - intros outcome st [Hnone|Hnone]; unfold handleUpload; rewrite Hnone; [done|].
    by destruct (englishFile st).
Qed.

(** The paper as a Word file and as a PDF, dropped on the English box: the
    page holds the Word file. *)
Lemma drops_hold_docx_witness :
  englishFile (foldl drop_step initial [([docx_file], english); ([pdf_file], english)])
  = Some docx_file
  ∧ holds_docx (foldl drop_step initial [([docx_file], english); ([pdf_file], english)]).
Proof.
  split; [reflexivity|].
  apply (drops_hold_docx [([docx_file], english); ([pdf_file], english)]).
Defined.

End upload_page.
